(** * git-fat: placeholder codec, clean/smudge filters, graph scan and gc

    A shallow embedding of [src/git_utils.py] (class [GitFat]) and of the
    parts of the Python runtime it calls.

    Conventions of the embedding.
    - A Python [str] is a list of Unicode code points ([list N]); a Python
      [bytes] object and the contents of a file are a [list byte].
    - [sys.stdin] and [sys.stdout] are text streams: the filters see
      characters, and an input [stdin : str] is the text that [sys.stdin]
      delivers, after decoding and newline translation.  Files opened in
      text mode and [str.encode] use UTF-8; reading in text mode
      translates newlines, writing on POSIX does not.
    - An exception is the [Raise] case of [result]; stateful code returns
      the state it leaves behind also when it raises.
    - The object directory is a finite map from file names to files.
    - [git_utils.py] uses names that it never binds.  [readblocks], [cat]
      and [cat_iter] are functions of the program that are missing from the
      source: they are modelled from the spec, each marked as such.
      [itertools], [logger] and the bare [umask] are not bound either (the
      module imports [logging] and [utils], and never [itertools]):
      evaluating one of them raises [NameError], and the model raises it
      where the code does.
    - [logging.debug] is bound.  [main.setup_logging] makes the root logger
      print to [sys.stdout], at level DEBUG when [GIT_FAT_VERBOSE] is set and
      at level INFO otherwise. *)

From Stdlib Require Import ZArith NArith Lia String Ascii.
From Stdlib Require Import Init.Byte Strings.Byte.
From stdpp Require Import gmap list.

Local Open Scope N_scope.

(* ===================================================================== *)
(** ** Python values: strings, exceptions *)
(* ===================================================================== *)

Module Py.

(** A [str] is a sequence of code points. *)
Definition str := list N.

(** A [str] literal from a Rocq string of ASCII characters. *)
Fixpoint lit (s : string) : str :=
  match s with
  | EmptyString => []
  | String a s' => N_of_ascii a :: lit s'
  end.

Definition LF : N := 10.
Definition SPACE : N := 32.

(** The exceptions the modelled code can raise. *)
Inductive exn : Type :=
  | DecodeError (msg : str)      (* GitFat.DecodeError = RuntimeError *)
  | IndexError
  | ValueError
  | TypeError
  | UnicodeEncodeError
  | UnicodeDecodeError
  | FileNotFoundError            (* an IOError *)
  | NameError (name : str)       (* a name that is bound nowhere *)
  | SystemExit (code : Z).       (* sys.exit(code) *)

Inductive result (A : Type) : Type :=
  | Ok (a : A)
  | Raise (e : exn).
Arguments Ok {A} a.
Arguments Raise {A} e.

Definition rbind {A B} (r : result A) (k : A -> result B) : result B :=
  match r with
  | Ok a => k a
  | Raise e => Raise e
  end.

(** [isinstance(e, IOError)] for the exceptions above. *)
Definition is_IOError (e : exn) : bool :=
  match e with FileNotFoundError => true | _ => false end.

(** *** [str.isspace] on one character, and [str.split()] *)

(** The code points Python treats as whitespace. *)
Definition isspace (c : N) : bool :=
  (9 <=? c) && (c <=? 13) || (28 <=? c) && (c <=? 32)
  || (c =? 0x85) || (c =? 0xA0) || (c =? 0x1680)
  || (0x2000 <=? c) && (c <=? 0x200A)
  || (c =? 0x2028) || (c =? 0x2029) || (c =? 0x202F)
  || (c =? 0x205F) || (c =? 0x3000).

(** [split_from tok s]: the tokens of [s], where [tok] is the token read
    so far. *)
Fixpoint split_from (tok : str) (s : str) : list str :=
  match s with
  | [] => match tok with [] => [] | _ => [tok] end
  | c :: s' =>
      if isspace c
      then match tok with [] => split_from [] s' | _ => tok :: split_from [] s' end
      else split_from (tok ++ [c]) s'
  end.

(** [s.split()]: split on runs of whitespace, no empty tokens. *)
Definition split (s : str) : list str := split_from [] s.

(** A string without whitespace: a single token. *)
Definition nospace (s : str) : Prop := Forall (fun c => isspace c = false) s.

(** [s.startswith(p)] *)
Fixpoint startswith (p s : str) : bool :=
  match p, s with
  | [], _ => true
  | _ :: _, [] => false
  | a :: p', b :: s' => (a =? b) && startswith p' s'
  end.

(** *** Integers as text: [str(n)], ["%20d" % n], [int(s)] *)

Fixpoint decimal_fuel (fuel : nat) (n : N) : str :=
  match fuel with
  | O => []
  | S f =>
      if n <? 10 then [48 + n]
      else decimal_fuel f (n / 10) ++ [48 + n mod 10]
  end.

(** The decimal digits of [n]; a number has no more decimal digits than
    binary ones. *)
Definition decimal (n : N) : str := decimal_fuel (S (N.to_nat (N.size n))) n.

(** [str(z)] for an integer. *)
Definition str_of_int (z : Z) : str :=
  match z with
  | Zneg p => 45 :: decimal (Npos p)
  | _ => decimal (Z.to_N z)
  end.

(** [s.rjust(w)]: pad with spaces on the left up to width [w]. *)
Definition rjust (w : nat) (s : str) : str :=
  replicate (w - length s)%nat SPACE ++ s.

(** An ASCII decimal digit and its value. *)
Definition isdigit (c : N) : bool := (48 <=? c) && (c <=? 57).

Definition digit_val (c : N) : option N :=
  if isdigit c then Some (c - 48) else None.

(** Digits, with single underscores allowed between two digits.
    [prev] tells whether the previous character was a digit. *)
Fixpoint parse_digits (acc : N) (prev : bool) (s : str) : option N :=
  match s with
  | [] => if prev then Some acc else None
  | c :: s' =>
      if c =? 95
      then (if prev then parse_digits acc false s' else None)
      else match digit_val c with
           | Some d => parse_digits (10 * acc + d) true s'
           | None => None
           end
  end.

(** [int(s)] on a token without whitespace: an optional sign and decimal
    digits.  Two things Python does are not modelled: it also accepts
    decimal digits outside ASCII (here they raise), and it refuses
    numerals beyond the interpreter's digit limit (here they convert). *)
Definition int (s : str) : result Z :=
  let digits (t : str) (sign : Z) : result Z :=
    match parse_digits 0 false t with
    | Some n => Ok (sign * Z.of_N n)%Z
    | None => Raise ValueError
    end in
  match s with
  | [] => Raise ValueError
  | c :: s' =>
      if c =? 43 then digits s' 1%Z
      else if c =? 45 then digits s' (-1)%Z
      else digits s 1%Z
  end.

(** *** UTF-8 *)

Definition byte_of (n : N) : byte :=
  match Byte.of_N (n mod 256) with Some b => b | None => x00 end.

(** One code point to UTF-8; surrogates cannot be encoded. *)
Definition encode_char (c : N) : option (list byte) :=
  if c <? 0x80 then Some [byte_of c]
  else if c <? 0x800 then
    Some [byte_of (0xC0 + c / 64); byte_of (0x80 + c mod 64)]
  else if c <? 0x10000 then
    if (0xD800 <=? c) && (c <=? 0xDFFF) then None
    else Some [byte_of (0xE0 + c / 4096); byte_of (0x80 + (c / 64) mod 64);
               byte_of (0x80 + c mod 64)]
  else if c <? 0x110000 then
    Some [byte_of (0xF0 + c / 262144); byte_of (0x80 + (c / 4096) mod 64);
          byte_of (0x80 + (c / 64) mod 64); byte_of (0x80 + c mod 64)]
  else None.

(** [s.encode("utf-8")]; [None] is [UnicodeEncodeError]. *)
Fixpoint utf8_encode (s : str) : option (list byte) :=
  match s with
  | [] => Some []
  | c :: s' =>
      match encode_char c, utf8_encode s' with
      | Some b, Some bs => Some (b ++ bs)
      | _, _ => None
      end
  end.

Definition in_range (lo hi : N) (b : byte) : bool :=
  (lo <=? Byte.to_N b) && (Byte.to_N b <=? hi).

Definition cont (b : byte) : N := Byte.to_N b mod 64.

(** [b.decode("utf-8")], strict: no overlong forms, no surrogates, nothing
    above U+10FFFF; [None] is [UnicodeDecodeError]. *)
Fixpoint utf8_decode (bs : list byte) : option str :=
  match bs with
  | [] => Some []
  | b0 :: r0 =>
      let n0 := Byte.to_N b0 in
      if n0 <? 0x80 then cons n0 <$> utf8_decode r0
      else match r0 with
      | [] => None
      | b1 :: r1 =>
          if in_range 0xC2 0xDF b0 then
            if in_range 0x80 0xBF b1
            then cons ((n0 - 0xC0) * 64 + cont b1) <$> utf8_decode r1
            else None
          else match r1 with
          | [] => None
          | b2 :: r2 =>
              if in_range 0xE0 0xEF b0 then
                if in_range (if n0 =? 0xE0 then 0xA0 else 0x80)
                            (if n0 =? 0xED then 0x9F else 0xBF) b1
                   && in_range 0x80 0xBF b2
                then cons ((n0 - 0xE0) * 4096 + cont b1 * 64 + cont b2)
                       <$> utf8_decode r2
                else None
              else match r2 with
              | [] => None
              | b3 :: r3 =>
                  if in_range 0xF0 0xF4 b0
                     && in_range (if n0 =? 0xF0 then 0x90 else 0x80)
                                 (if n0 =? 0xF4 then 0x8F else 0xBF) b1
                     && in_range 0x80 0xBF b2 && in_range 0x80 0xBF b3
                  then cons ((n0 - 0xF0) * 262144 + cont b1 * 4096
                             + cont b2 * 64 + cont b3) <$> utf8_decode r3
                  else None
              end
          end
      end
  end.

(** The text of the longest prefix of [bs] that is valid UTF-8. *)
Fixpoint utf8_valid_prefix_upto (n : nat) (bs : list byte) : str :=
  match utf8_decode (take n bs) with
  | Some s => s
  | None =>
      match n with
      | O => []
      | S n' => utf8_valid_prefix_upto n' bs
      end
  end.

Definition utf8_valid_prefix (bs : list byte) : str :=
  utf8_valid_prefix_upto (length bs) bs.

(** *** Text streams *)

Definition CR : N := 13.

(** What reading in text mode with universal newlines (the default of
    [open] and of [sys.stdin]) makes of a decoded text: CR LF and a lone CR
    are read as LF. *)
Fixpoint universal_newlines (s : str) : str :=
  match s with
  | [] => []
  | c :: s' =>
      if c =? CR then
        LF :: match s' with
              | d :: s'' =>
                  if d =? LF then universal_newlines s''
                  else universal_newlines s'
              | [] => []
              end
      else c :: universal_newlines s'
  end.

(** [os.path.join(a, b)] on POSIX. *)
Definition SLASH : N := 47.

Definition os_path_join (a b : str) : str :=
  if startswith [SLASH] b then b
  else match last a with
       | None => b
       | Some c => if c =? SLASH then a ++ b else a ++ [SLASH] ++ b
       end.

End Py.

#[global] Instance result_ret : MRet Py.result := fun A a => Py.Ok a.
#[global] Instance result_bind : MBind Py.result := fun A B k r => Py.rbind r k.

(* ===================================================================== *)
(** ** hashlib: SHA-1 (FIPS 180-4) *)
(* ===================================================================== *)

Module Sha1.

Definition w32 (x : N) : N := x mod 2 ^ 32.

Definition rotl (n x : N) : N :=
  N.lor (w32 (N.shiftl x n)) (N.shiftr x (32 - n)).

Definition f (t : nat) (b c d : N) : N :=
  if (t <? 20)%nat then N.lor (N.land b c) (N.land (N.lnot b 32) d)
  else if (t <? 40)%nat then N.lxor (N.lxor b c) d
  else if (t <? 60)%nat then
    N.lor (N.lor (N.land b c) (N.land b d)) (N.land c d)
  else N.lxor (N.lxor b c) d.

Definition K (t : nat) : N :=
  if (t <? 20)%nat then 0x5A827999
  else if (t <? 40)%nat then 0x6ED9EBA1
  else if (t <? 60)%nat then 0x8F1BBCDC
  else 0xCA62C1D6.

Definition state : Type := N * N * N * N * N.

Definition H0 : state :=
  (0x67452301, 0xEFCDAB89, 0x98BADCFE, 0x10325476, 0xC3D2E1F0).

(** The [k] low bytes of [x], most significant first. *)
Definition be_bytes (k : nat) (x : N) : list byte :=
  map (fun i => Py.byte_of (N.shiftr x (8 * N.of_nat i))) (rev (seq 0 k)).

(** The message followed by the bit 1, zeros, and its length in bits as a
    64-bit big-endian number, a multiple of 64 bytes in all. *)
Definition pad (msg : list byte) : list byte :=
  let l := length msg in
  msg ++ [x80] ++ replicate ((119 - l mod 64) mod 64)%nat x00
      ++ be_bytes 8 (8 * N.of_nat l).

Fixpoint words (bs : list byte) : list N :=
  match bs with
  | a :: b :: c :: d :: r =>
      (Byte.to_N a * 16777216 + Byte.to_N b * 65536
       + Byte.to_N c * 256 + Byte.to_N d) :: words r
  | _ => []
  end.

Definition schedule (blk : list N) : list N :=
  fold_left
    (fun ws t =>
       ws ++ [rotl 1 (N.lxor (N.lxor (nth (t - 3) ws 0) (nth (t - 8) ws 0))
                             (N.lxor (nth (t - 14) ws 0) (nth (t - 16) ws 0)))])
    (seq 16 64) blk.

Definition round (st : state) (tw : nat * N) : state :=
  let '(a, b, c, d, e) := st in
  let (t, wt) := tw in
  (w32 (rotl 5 a + f t b c d + e + K t + wt), a, rotl 30 b, c, d).

Definition compress (h : state) (blk : list byte) : state :=
  let ws := schedule (words blk) in
  let '(a, b, c, d, e) := fold_left round (zip (seq 0 80) ws) h in
  let '(h0, h1, h2, h3, h4) := h in
  (w32 (h0 + a), w32 (h1 + b), w32 (h2 + c), w32 (h3 + d), w32 (h4 + e)).

Fixpoint blocks (fuel : nat) (h : state) (bs : list byte) : state :=
  match fuel, bs with
  | S fuel', _ :: _ => blocks fuel' (compress h (take 64 bs)) (drop 64 bs)
  | _, _ => h
  end.

Definition hexchar (n : N) : N := if n <? 10 then 48 + n else 87 + n.

Definition hex8 (x : N) : Py.str :=
  map (fun i => hexchar (N.shiftr x (4 * i) mod 16)) [7; 6; 5; 4; 3; 2; 1; 0].

(** [hashlib.sha1(msg).hexdigest()] *)
Definition hexdigest (msg : list byte) : Py.str :=
  let p := pad msg in
  let '(h0, h1, h2, h3, h4) := blocks (length p) H0 p in
  hex8 h0 ++ hex8 h1 ++ hex8 h2 ++ hex8 h3 ++ hex8 h4.

End Sha1.

Import Py.

Definition bytes_of_ascii (s : string) : list byte :=
  map byte_of (lit s).

(* ===================================================================== *)

(** ** class GitFat: the placeholder codec *)
(* ===================================================================== *)

Module GitFat.

Definition GIT_FAT_VERSION : str := lit "GIT_FAT_VERSION".

Definition GIT_FAT_VERBOSE : str := lit "GIT_FAT_VERBOSE".

Definition cookie : str := lit "#$# git-fat ".

(** ["#$# git-fat %s\n" % (digest,)]; the byte count is ignored. *)
Definition encode_v1 (digest : str) (bytes : option Z) : result str :=
  Ok (cookie ++ digest ++ [LF]).

(** ["#$# git-fat %s %20d\n" % (digest, bytes)]; [%d] of [None] is a
    [TypeError]. *)
Definition encode_v2 (digest : str) (bytes : option Z) : result str :=
  match bytes with
  | Some n => Ok (cookie ++ digest ++ [SPACE] ++ rjust 20 (str_of_int n) ++ [LF])
  | None => Raise TypeError
  end.

Definition encode (environ : gmap str str) (digest : str) (bytes : option Z)
  : result str :=
  if decide (environ !! GIT_FAT_VERSION = Some (lit "1"))
  then encode_v1 digest bytes
  else encode_v2 digest bytes.

(** [decode(string, noraise)] returns the pair [(digest, bytes)]; [None]
    in either place is Python's [None]. *)
Definition decode (string : str) (noraise : bool)
  : result (option str * option Z) :=
  if startswith cookie string then
    let parts := split (drop (length cookie) string) in
    digest ← match parts with
              | d :: _ => Ok d
              | [] => Raise IndexError
              end;
    bytes ← match parts with
             | _ :: p1 :: _ => n ← int p1; Ok (Some n)
             | _ => Ok None
             end;
    Ok (Some digest, bytes)
  else if noraise then Ok (None, None)
  else Raise (DecodeError (lit "Could not decode " ++ string)).

(** [decode_clean(body)]: the digest of a working-tree placeholder. *)
Definition decode_clean (body : str) : result (option str) :=
  '(digest, bytes) ← decode body true;
  Ok digest.

(** The fields of [self] that the modelled methods read. *)
Record t : Type := Self { magiclen : nat; magiclens : list nat }.

Definition dummy_hash : str := Sha1.hexdigest (bytes_of_ascii "dummy").

Definition _calculate_magic_len (environ : gmap str str) : result nat :=
  s ← encode environ dummy_hash (Some 5%Z);
  Ok (length s).

Definition _calculate_all_magic_lens : result (list nat) :=
  s1 ← encode_v1 dummy_hash (Some 5%Z);
  s2 ← encode_v2 dummy_hash (Some 5%Z);
  Ok [length s1; length s2].

Definition __init__ (environ : gmap str str) : result t :=
  ml ← _calculate_magic_len environ;
  mls ← _calculate_all_magic_lens;
  Ok (Self ml mls).

(** A digest: 40 lowercase hexadecimal characters. *)
Definition ishex (c : N) : bool :=
  (48 <=? c) && (c <=? 57) || (97 <=? c) && (c <=? 102).

Definition is_digest (d : str) : Prop :=
  length d = 40%nat ∧ Forall (fun c => ishex c = true) d.

(** *** Files, streams and the state the filters act on *)

(** A file of the object directory: permission bits and contents. *)
Record file : Type := File { f_mode : Z; f_data : list byte }.

(** The state outside the process memory: the object directory
    [<git-dir>/fat/objects] as a map from file names to files (so
    [os.path.join(self.objdir, name)] is the key [name]), the process
    umask, and what has been written to the output stream so far
    ([sys.stdout] for the filter commands). *)
Record world : Type :=
  World { objdir : gmap str file; umask_bits : Z; out : str }.

(** A computation that acts on the world and may raise. *)
Definition M (A : Type) : Type := world -> result A * world.

#[global] Instance M_ret : MRet M := fun A a w => (Ok a, w).
#[global] Instance M_bind : MBind M := fun A B k m w =>
  match m w with
  | (Ok a, w') => k a w'
  | (Raise e, w') => (Raise e, w')
  end.

Definition lift {A} (r : result A) : M A := fun w => (r, w).

Definition set_objdir (w : world) (d : gmap str file) : world :=
  World d (umask_bits w) (out w).

(** [stream.write(s)] on the output stream. *)
Definition write (s : str) : M unit := fun w =>
  (Ok tt, World (objdir w) (umask_bits w) (out w ++ s)).

(** [tempfile.mkstemp(dir=self.objdir)]: a new empty file, readable and
    writable by its owner only.  The name is the one the system picks. *)
Definition mkstemp (tmpname : str) : M unit := fun w =>
  (Ok tt, set_objdir w (<[tmpname := File 384 (* 0o600 *) []]> (objdir w))).

(** [f.write(s)] on a file opened for writing in text mode: the UTF-8
    encoding of [s] is appended. *)
Definition file_write (name : str) (s : str) : M unit := fun w =>
  match utf8_encode s with
  | Some b =>
      (Ok tt, set_objdir w
         (alter (fun f => File (f_mode f) (f_data f ++ b)) name (objdir w)))
  | None => (Raise UnicodeEncodeError, w)
  end.

(** [os.path.exists(path)] *)
Definition path_exists (name : str) : M bool := fun w =>
  (Ok (bool_decide (is_Some (objdir w !! name))), w).

(** [os.remove(path)] *)
Definition os_remove (name : str) : M unit := fun w =>
  match objdir w !! name with
  | Some _ => (Ok tt, set_objdir w (delete name (objdir w)))
  | None => (Raise FileNotFoundError, w)
  end.

(** [os.chmod(path, mode)] *)
Definition os_chmod (name : str) (mode : Z) : M unit := fun w =>
  match objdir w !! name with
  | Some f => (Ok tt, set_objdir w (<[name := File mode (f_data f)]> (objdir w)))
  | None => (Raise FileNotFoundError, w)
  end.

(** [os.rename(src, dst)]: replaces [dst] when it exists. *)
Definition os_rename (src dst : str) : M unit := fun w =>
  match objdir w !! src with
  | Some f => (Ok tt, set_objdir w (<[dst := f]> (delete src (objdir w))))
  | None => (Raise FileNotFoundError, w)
  end.

(** [os.stat(path).st_size] *)
Definition os_stat_size (name : str) : M nat := fun w =>
  match objdir w !! name with
  | Some f => (Ok (length (f_data f)), w)
  | None => (Raise FileNotFoundError, w)
  end.

(** A file opened for reading in text mode: the text that reading it to
    the end delivers, and the exception, if there is one, that ends the
    reading. *)
Record text_file : Type := TextFile { tf_text : str; tf_error : option exn }.

(** The end of the reading of a text file. *)
Definition reading_ends (f : text_file) : M unit :=
  match tf_error f with
  | Some e => lift (Raise e)
  | None => mret tt
  end.

(** Evaluating a name that is bound nowhere in the module. *)
Definition unbound {A} (name : string) : M A :=
  lift (Raise (NameError (lit name))).

(** [logging.debug(msg)]: the root logger prints to [sys.stdout], and
    passes DEBUG records only when [GIT_FAT_VERBOSE] is set, to any
    value ([main.setup_logging], [utils.is_verbose]). *)
Definition logging_debug (environ : gmap str str) (msg : str) : M unit :=
  match environ !! GIT_FAT_VERBOSE with
  | Some _ => write (msg ++ [LF])
  | None => mret tt
  end.

(** What [logging.debug(msg)] adds to the output. *)
Definition debug_text (environ : gmap str str) (msg : str) : str :=
  match environ !! GIT_FAT_VERBOSE with
  | Some _ => msg ++ [LF]
  | None => []
  end.

(** [for x in xs: body(x, acc)], threading the loop variables [acc]. *)
Fixpoint for_each {A B} (body : A -> B -> M B) (xs : list A) (acc : B) : M B :=
  match xs with
  | [] => mret acc
  | x :: xs' => acc' ← body x acc; for_each body xs' acc'
  end.

(** [try: body  except E: handler], where [catches] tells which
    exceptions are instances of [E]. *)
Definition try_except {A} (body : M A) (catches : exn -> bool)
    (handler : M A) : M A := fun w =>
  match body w with
  | (Raise e, w') => if catches e then handler w' else (Raise e, w')
  | ok => ok
  end.

(** Python truthiness of a value that is a [str] or [None]. *)
Definition truthy (d : option str) : bool :=
  match d with Some (_ :: _) => true | _ => false end.

Section Blocks.

(** The size of the blocks in which streams are read. *)
Variable BLOCK_SIZE : nat.

(** The value of [self.objdir], a path; only a debug message shows it. *)
Variable objdir_path : str.

(** How many characters of a file that is not valid UTF-8 the text layer
    hands to its reader before it raises [UnicodeDecodeError].  This
    depends on the sizes of the buffers of the [io] module, which the
    source does not fix. *)
Variable delivered : list byte -> nat.

(** [open(path)] of a file of the object directory, for reading in text
    mode: UTF-8, strict, with universal newlines.  A file that is not
    valid UTF-8 delivers some of the text that precedes the first invalid
    byte, and then raises. *)
Definition open_text (name : str) : M text_file := fun w =>
  match objdir w !! name with
  | Some f =>
      match utf8_decode (f_data f) with
      | Some s => (Ok (TextFile (universal_newlines s) None), w)
      | None =>
          (Ok (TextFile (take (delivered (f_data f))
                           (universal_newlines (utf8_valid_prefix (f_data f))))
                        (Some UnicodeDecodeError)), w)
      end
  | None => (Raise FileNotFoundError, w)
  end.

Fixpoint readblocks_fuel (fuel : nat) (stream : str) : list str :=
  match fuel with
  | O => []
  | S fuel' =>
      match take BLOCK_SIZE stream with
      | [] => []
      | data => data :: readblocks_fuel fuel' (drop BLOCK_SIZE stream)
      end
  end.

(** Modelled from the spec: [readblocks(stream)], which the filters call
    and [git_utils.py] does not define.  The stream is read block after
    block ("read the first block", "for every block") with
    [stream.read(BLOCK_SIZE)] until a read returns nothing. *)
Definition readblocks (stream : str) : list str :=
  readblocks_fuel (S (length stream)) stream.

(** Modelled from the spec: [cat_iter(initer, outstream)], not defined in
    [git_utils.py]: every block is written to the output ("the head bytes
    plus the rest of the stream are forwarded to output unchanged"). *)
Definition cat_iter (initer : list str) : M unit :=
  for_each (fun block (_ : unit) => write block) initer tt.

(** Modelled from the spec: [cat(instream, outstream)], not defined in
    [git_utils.py]: "copy all bytes to output".  The blocks that the file
    delivers are written as they are read. *)
Definition cat (instream : text_file) : M unit :=
  _ ← cat_iter (readblocks (tf_text instream));
  reading_ends instream.

(** [self.setup()]: [mkdir -p] of the object directory, which the model
    takes to exist. *)
Definition setup : M unit := mret tt.

(** *** filter_clean *)

(** The loop variables of [filter_clean]: the bytes fed to the hasher [h],
    the counter [bytes], and the flags.  [outstream] is [outstreamclean]
    when [ishanging] holds and the temporary file [cache] otherwise. *)
Record locals : Type :=
  Locals { h : list byte; bytes : Z; ishanging : bool; firstblock : bool }.

(** The body of [for block in readblocks(instream)]. *)
Definition clean_block (self : t) (tmpname : str) (block : str) (l : locals)
  : M locals :=
  hang ← (if firstblock l then
            if decide (length block = magiclen self) then
              d ← lift (decode_clean (take (magiclen self) block));
              mret (truthy d)
            else mret false
          else mret false) : M bool;
  let ishanging' := if hang : bool then true else ishanging l in
  (* h.update(block.encode("utf-8")) *)
  b ← lift (match utf8_encode block with
            | Some b => Ok b
            | None => Raise UnicodeEncodeError
            end);
  (* outstream.write(block) *)
  _ ← (if ishanging' then write block else file_write tmpname block);
  mret (Locals (h l ++ b) (bytes l + Z.of_nat (length block)) ishanging' false).

(** ["git-fat filter-clean: cache already exists %s" % objfile] *)
Definition cache_exists_msg (digest : str) : str :=
  lit "git-fat filter-clean: cache already exists "
  ++ os_path_join objdir_path digest.

(** The [try] block of [filter_clean].  Besides its result it returns the
    value of [cached], which the [finally] clause reads.  The bare [umask]
    of the [else] branch and [logger] are bound nowhere. *)
Definition filter_clean_try (self : t) (environ : gmap str str)
    (tmpname : str) (instream : str) (w : world) : result unit * bool * world :=
  match for_each (clean_block self tmpname) (readblocks instream)
          (Locals [] 0 false true) w with
  | (Raise e, w1) => (Raise e, false, w1)
  | (Ok l, w1) =>
      let digest := Sha1.hexdigest (h l) in
      if negb (ishanging l) then
        match (ex ← path_exists digest;
               if ex : bool then
                 (_ ← logging_debug environ (cache_exists_msg digest);
                  os_remove tmpname)
               else
                 (u ← unbound "umask";
                  _ ← os_chmod tmpname (Z.land 292 (* 0o444 *) (Z.lnot u));
                  _ ← os_rename tmpname digest;
                  unbound "logger")) w1 with
        | (Raise e, w2) => (Raise e, false, w2)
        | (Ok _, w2) =>
            (* cached = True *)
            let '(r, w3) := (s ← lift (encode environ digest (Some (bytes l)));
                             write s) w2 in
            (r, true, w3)
        end
      else (Ok tt, false, w1)
  end.

Definition filter_clean (self : t) (environ : gmap str str)
    (tmpname : str) (instream : str) : M unit := fun w =>
  let '(_, w0) := mkstemp tmpname w in
  let '(r, cached, w1) := filter_clean_try self environ tmpname instream w0 in
  (* finally: if not cached: os.remove(tmpname) *)
  if cached : bool then (r, w1)
  else match os_remove tmpname w1 with
       | (Ok _, w2) => (r, w2)
       | (Raise e, w2) => (Raise e, w2)
       end.

Definition cmd_filter_clean (self : t) (environ : gmap str str)
    (tmpname : str) (stdin : str) : M unit :=
  _ ← setup;
  filter_clean self environ tmpname stdin.

(** *** filter_smudge *)

(** What [decode_stream] returns in first place: a digest, or an iterator
    over the blocks of the input. *)
Inductive pyobj : Type :=
  | PStr (s : str)
  | PNone
  | PIter (blocks : list str).

(** [decode_stream(stream)].  The handler of [DecodeError] means to
    return an iterator over the input and raises [NameError] instead. *)
Definition decode_stream (self : t) (stream : str)
  : result (pyobj * option Z) :=
  let preamble := take (magiclen self) stream in
  match decode preamble false with
  | Ok (Some digest, bytes) => Ok (PStr digest, bytes)
  | Ok (None, bytes) => Ok (PNone, bytes)
  | Raise (DecodeError _) =>
      (* return itertools.chain([preamble], readblocks(stream)), None:
         [itertools] is bound nowhere *)
      Raise (NameError (lit "itertools"))
  | Raise e => Raise e
  end.

(** [cmd_filter_smudge()]; every branch evaluates [logger]. *)
Definition cmd_filter_smudge (self : t) (environ : gmap str str)
    (stdin : str) : M unit :=
  _ ← setup;
  '(result, bytes) ← lift (decode_stream self stdin);
  match result with
  | PStr digest =>
      try_except
        (f ← open_text digest;
         _ ← cat f;
         unbound "logger")
        is_IOError                                 (* file not found *)
        (_ ← (unbound "logger" : M unit);
         s ← lift (encode environ digest bytes);
         write s)
  | PIter blocks => _ ← (unbound "logger" : M unit); cat_iter blocks
  | PNone => _ ← (unbound "logger" : M unit); lift (Raise TypeError)
  end.

End Blocks.

(** *** The graph scan and gc *)

(** [set(os.listdir(self.objdir))] *)
Definition catalog_objects (w : world) : gset str := dom (objdir w).

(** [stream.readline()] on a binary stream: up to and including the first
    LF, or all that is left. *)
Fixpoint readline (stream : list byte) : list byte * list byte :=
  match stream with
  | [] => ([], [])
  | b :: r =>
      if Byte.eqb b x0a then ([b], r)
      else let (line, rest) := readline r in (b :: line, rest)
  end.

Definition decode_utf8 (b : list byte) : result str :=
  match utf8_decode b with
  | Some s => Ok s
  | None => Raise UnicodeDecodeError
  end.

(** The loop [while bytes_read < size] that reads the content of a record. *)
Fixpoint read_content (fuel : nat) (size bytes_read : Z) (content : str)
    (stream : list byte) : result (str * list byte) :=
  match fuel with
  | O => Ok (content, stream)
  | S fuel' =>
      if (bytes_read <? size)%Z then
        let n := Z.to_nat (size - bytes_read) in
        match take n stream with
        | [] => Ok (content, stream)                       (* EOF *)
        | raw =>
            data ← decode_utf8 raw;
            read_content fuel' size (bytes_read + Z.of_nat (length data))
              (content ++ data) (drop n stream)
        end
      else Ok (content, stream)
  end.

(** The consumer loop of [referenced_objects] over the output of
    [git cat-file --batch]. *)
Fixpoint scan_records (fuel : nat) (stream : list byte)
    (referenced : gset str) : result (gset str) :=
  match fuel with
  | O => Ok referenced
  | S fuel' =>
      match readline stream with
      | ([], _) => Ok referenced                           (* EOF *)
      | (metadata_line, s1) =>
          line ← decode_utf8 metadata_line;
          match split line with
          | [objhash; objtype; size_str] =>
              size ← int size_str;
              '(content, s2) ← read_content (S (length s1)) size 0 [] s1;
              referenced' ←
                match decode content false with
                | Ok (Some fathash, _) => Ok ({[fathash]} ∪ referenced)
                | Ok (None, _) => Ok referenced  (* not reached, see below *)
                | Raise (DecodeError _) => Ok referenced
                | Raise e => Raise e
                end;
              (* consume the LF record delimiter *)
              scan_records fuel' (drop 1 s2) referenced'
          | _ => Raise ValueError
          end
      end
  end.

(** [referenced_objects()], as a function of what the pipeline of git
    processes delivers on [p3.stdout]. *)
Definition referenced_objects (p3_stdout : list byte) : result (gset str) :=
  scan_records (S (length p3_stdout)) p3_stdout ∅.

(** [cmd_gc()]; the set [garbage] is visited in some order.  Both
    messages go through [logger], which is bound nowhere: the first one
    is evaluated before the loop. *)
Definition cmd_gc (p3_stdout : list byte) : M unit := fun w =>
  let catalog := catalog_objects w in
  match referenced_objects p3_stdout with
  | Raise e => (Raise e, w)
  | Ok referenced =>
      let garbage := catalog ∖ referenced in
      (_ ← (unbound "logger" : M unit);
       for_each (fun obj (_ : unit) =>
                   _ ← (unbound "logger" : M unit);
                   _ ← os_stat_size obj;
                   os_remove obj)
         (elements garbage) tt) w
  end.

End GitFat.

(* ===================================================================== *)
(** ** Concrete data used by the examples below *)
(* ===================================================================== *)

Import GitFat.

(** [self] as [__init__] builds it without [GIT_FAT_VERSION]. *)
Definition example_self : t := Self 74 [53; 74]%nat.

(** A name as [mkstemp] picks them. *)
Definition example_tmpname : str := lit "tmpk3v9x_2a".

(** An empty object directory, umask 022, nothing written yet. *)
Definition example_world : world := World ∅ 18 [].

(** [self.objdir] in a repository whose git directory is [.git]. *)
Definition example_objdir_path : str := lit ".git/fat/objects".

(** An object directory that holds the 11 bytes ["hello world"] under
    their SHA-1. *)
Definition example_stored_world : world :=
  World {[ lit "2aae6c35c94fcfb415dbe95f408b9ce91ee846ed"
           := File 292 (bytes_of_ascii "hello world") ]} 18 [].

(** The V2 placeholder of the 11 bytes ["hello world"]. *)
Definition example_placeholder : str :=
  lit "#$# git-fat 2aae6c35c94fcfb415dbe95f408b9ce91ee846ed                   11"
  ++ [LF].

(** The output of [git cat-file --batch] for one blob. *)
Definition batch_record (objhash : string) (content : str) : list byte :=
  map byte_of (lit objhash ++ lit " blob " ++ decimal (N.of_nat (length content))
               ++ [LF] ++ content ++ [LF]).

(* ===================================================================== *)
(** ** Further methods of class GitFat *)
(* ===================================================================== *)

(** *** The invariant of the object directory and cmd_verify *)

(** Every file of the object directory is named by the SHA-1 of its
    contents. *)
Definition store_ok (m : gmap str file) : Prop :=
  forall name f, m !! name = Some f -> name = Sha1.hexdigest (f_data f).

(** [for block in blocks: h.update(block.encode("utf-8"))] *)
Fixpoint hash_blocks (blocks : list str) (h : list byte) : result (list byte) :=
  match blocks with
  | [] => Ok h
  | block :: rest =>
      match utf8_encode block with
      | Some b => hash_blocks rest (h ++ b)
      | None => Raise UnicodeEncodeError
      end
  end.

Section Verify.

Variable BLOCK_SIZE : nat.
Variable delivered : list byte -> nat.

(** The body of the loop of [cmd_verify] for one object: the file is read
    in text mode, hashed block by block, and recorded when the digest is
    not its name. *)
Definition verify_object (obj : str)
    (corrupted_objects : list (str * str)) : M (list (str * str)) :=
  f ← open_text delivered obj;
  hb ← lift (hash_blocks (readblocks BLOCK_SIZE (tf_text f)) []);
  _ ← reading_ends f;
  let data_hash := Sha1.hexdigest hb in
  mret (if decide (obj = data_hash) then corrupted_objects
        else corrupted_objects ++ [(obj, data_hash)]).

(** [cmd_verify()].  The report of corrupted objects goes through
    [logger], which is bound nowhere, so [sys.exit(1)] is not reached. *)
Definition cmd_verify : M unit := fun w =>
  (corrupted_objects ←
     for_each verify_object (elements (catalog_objects w)) [];
   match corrupted_objects with
   | [] => mret tt
   | _ :: _ =>
       _ ← (unbound "logger" : M unit);
       _ ← for_each (fun (_ : str * str) (_ : unit) => unbound "logger")
             corrupted_objects tt;
       lift (Raise (SystemExit 1))
   end) w.

End Verify.

(** What [cmd_verify] hashes for a file: the UTF-8 bytes of the text that
    reading it in text mode delivers. *)
Definition text_mode_bytes (data : list byte) : option (list byte) :=
  s ← utf8_decode data; utf8_encode (universal_newlines s).

(** Every file of the object directory is named by the SHA-1 of what
    reading it in text mode delivers. *)
Definition store_text_ok (m : gmap str file) : Prop :=
  forall name f,
    m !! name = Some f ->
    exists hb, text_mode_bytes (f_data f) = Some hb /\ name = Sha1.hexdigest hb.

(** *** Blobs of ASCII text in the graph scan *)

(** A string of ASCII characters: one byte each in UTF-8. *)
Definition is_ascii (s : str) : Prop := Forall (fun c => c < 128) s.

(** The digests that [decode] finds in a list of blob contents. *)
Definition decoded_digests (contents : list str) : gset str :=
  list_to_set
    (omap (fun c => match decode c false with
                    | Ok (Some d, _) => Some d
                    | _ => None
                    end) contents).

(** [decode] of a blob's content either succeeds or raises the error that
    the scan catches. *)
Definition decode_settles (content : str) : Prop :=
  forall e, decode content false = Raise e -> exists msg, e = DecodeError msg.

(** What [git cat-file --batch] prints for a list of blobs. *)
Definition batch_output (records : list (string * str)) : list byte :=
  concat (map (fun r => batch_record r.1 r.2) records).

(** *** The arguments of [git fat pull] *)

(** [l.index(x)]: the position of the first [x]; [ValueError] when there
    is none. *)
Fixpoint list_index (x : str) (l : list str) : result nat :=
  match l with
  | [] => Raise ValueError
  | y :: l' =>
      if decide (y = x) then Ok 0%nat
      else i ← list_index x l'; Ok (S i)
  end.

(** [parse_pull_patterns(args)] *)
Definition parse_pull_patterns (args : list str) : result (list str) :=
  if decide (lit "--" ∉ args) then Ok [lit ""]
  else
    idx ← list_index (lit "--") args;
    Ok (drop (idx + 1) args).

(** *** The two threads between the git processes of the graph scan *)

(** [for line in input] on a binary stream: the lines, each with its LF;
    the last one may lack it. *)
Fixpoint readlines_fuel (fuel : nat) (stream : list byte) : list (list byte) :=
  match fuel with
  | O => []
  | S fuel' =>
      match readline stream with
      | ([], _) => []
      | (line, rest) => line :: readlines_fuel fuel' rest
      end
  end.

Definition readlines (stream : list byte) : list (list byte) :=
  readlines_fuel (length stream) stream.

(** [s.encode("utf-8")] *)
Definition encode_utf8 (s : str) : result (list byte) :=
  match utf8_encode s with
  | Some b => Ok b
  | None => Raise UnicodeEncodeError
  end.

(** [for line in input: body], where the body appends to [output]: how the
    loop ended, and what has been written to [output] by then. *)
Fixpoint for_lines (body : list byte -> list byte -> result (list byte))
    (lines : list (list byte)) (output : list byte)
  : result unit * list byte :=
  match lines with
  | [] => (Ok tt, output)
  | line :: lines' =>
      match body line output with
      | Ok output' => for_lines body lines' output'
      | Raise e => (Raise e, output)
      end
  end.

(** The body of the loop of [cut_sha1hash]. *)
Definition cut_sha1hash_line (line output : list byte) : result (list byte) :=
  line' ← decode_utf8 line;
  tok ← match split line' with
        | tok :: _ => Ok tok
        | [] => Raise IndexError
        end;
  to_write ← encode_utf8 (tok ++ [LF]);
  Ok (output ++ to_write).

(** [cut_sha1hash(input, output)], on what [git rev-list --objects]
    prints. *)
Definition cut_sha1hash (input : list byte) : result unit * list byte :=
  for_lines cut_sha1hash_line (readlines input) [].

(** The body of the loop of [filter_gitfat_candidates]; [and] evaluates
    [int(size)] only for a blob. *)
Definition filter_gitfat_candidates_line (self : t) (line output : list byte)
  : result (list byte) :=
  line' ← decode_utf8 line;
  match split line' with
  | [objhash; objtype; size] =>
      if decide (objtype = lit "blob") then
        n ← int size;
        if decide (n ∈ map Z.of_nat (magiclens self)) then
          to_write ← encode_utf8 (objhash ++ [LF]);
          Ok (output ++ to_write)
        else Ok output
      else Ok output
  | _ => Raise ValueError
  end.

(** [filter_gitfat_candidates(input, output)], on what
    [git cat-file --batch-check] prints. *)
Definition filter_gitfat_candidates (self : t) (input : list byte)
  : result unit * list byte :=
  for_lines (filter_gitfat_candidates_line self) (readlines input) [].

(** One line of [git cat-file --batch-check]. *)
Definition batch_check_line (entry : str * str * N) : list byte :=
  map byte_of (entry.1.1 ++ [SPACE] ++ entry.1.2 ++ [SPACE]
               ++ decimal entry.2 ++ [LF]).

(** The entries of [git cat-file --batch-check] that are blobs of a magic
    length. *)
Definition is_candidate (self : t) (entry : str * str * N) : bool :=
  bool_decide (entry.1.2 = lit "blob"
               /\ Z.of_N entry.2 ∈ map Z.of_nat (magiclens self)).

(** One line of [git rev-list --objects]: the name of the object, and for
    a tree or a blob a space and its path. *)
Definition rev_list_line (obj : str * option str) : list byte :=
  map byte_of (obj.1 ++ match obj.2 with
                        | Some path => [SPACE] ++ path
                        | None => []
                        end ++ [LF]).

(** The text of a line of [git rev-list --objects] before its LF. *)
Definition rev_list_text (obj : str * option str) : str :=
  obj.1 ++ match obj.2 with
           | Some path => [SPACE] ++ path
           | None => []
           end.

(** The lines of [git rev-list --objects] that the lemmas on
    [cut_sha1hash] are stated for: an object name, and a path in ASCII. *)
Definition rev_list_ok (obj : str * option str) : Prop :=
  nospace obj.1 /\ obj.1 <> [] /\ is_ascii obj.1
  /\ forall path, obj.2 = Some path ->
                  is_ascii path /\ Forall (fun c => c <> LF) path.

(** The lines of [git cat-file --batch-check] that the lemmas on
    [filter_gitfat_candidates] are stated for. *)
Definition entry_ok (entry : str * str * N) : Prop :=
  nospace entry.1.1 /\ entry.1.1 <> [] /\ is_ascii entry.1.1
  /\ nospace entry.1.2 /\ entry.1.2 <> [] /\ is_ascii entry.1.2.

(** *** Placeholders in the working tree *)

(** What [decode_file] returns in first place: [False], [None] or a
    digest. *)
Inductive file_digest : Type :=
  | DFalse
  | DNone
  | DStr (digest : str).

(** [s.split(sep)] for a separator of one character: empty fields are
    kept. *)
Fixpoint split_sep_from (sep : N) (tok s : str) : list str :=
  match s with
  | [] => [tok]
  | c :: s' =>
      if c =? sep then tok :: split_sep_from sep [] s'
      else split_sep_from sep (tok ++ [c]) s'
  end.

Definition split_sep (sep : N) (s : str) : list str := split_sep_from sep [] s.

Definition NUL : N := 0.

Section WorkingTree.

(** The files of the working tree, by name. *)
Variable tree : gmap str (list byte).

(** What [git ls-files -z] prints for the given patterns. *)
Variable git_ls_files : list str -> list byte.

(** [decode_file(fname)]: a file of [magiclen] bytes is read in text mode
    and decoded; [UnicodeDecodeError], [IndexError], [ValueError] and the
    [NameError] of [decode_stream] are not instances of [IOError] and pass
    through. *)
Definition decode_file (self : t) (fname : str)
  : result (file_digest * option Z) :=
  match tree !! fname with
  | None => Ok (DFalse, None)                         (* os.lstat: OSError *)
  | Some data =>
      if decide (length data <> magiclen self) then Ok (DFalse, None)
      else
        match (stream ← decode_utf8 data;
               decode_stream self (universal_newlines stream)) with
        | Raise e => if is_IOError e then Ok (DFalse, None) else Raise e
        | Ok (PStr digest, bytes) => Ok (DStr digest, bytes)
        | Ok (_, bytes) => Ok (DNone, bytes)
        end
  end.

(** [if not patterns or patterns == [""]: patterns = ["."]] *)
Definition orphan_patterns (patterns : list str) : list str :=
  if decide (patterns = []) then [lit "."]
  else if decide (patterns = [lit ""]) then [lit "."]
  else patterns.

(** The loop of [orphan_files]: [(digest, fname)] for every name whose
    digest is truthy. *)
Fixpoint orphan_loop (self : t) (fnames : list str)
  : result (list (str * str)) :=
  match fnames with
  | [] => Ok []
  | fname :: fnames' =>
      '(digest, _) ← decode_file self fname;
      more ← orphan_loop self fnames';
      Ok (match digest with
          | DStr (c :: d) => (c :: d, fname) :: more
          | _ => more
          end)
  end.

(** [orphan_files(patterns)], with everything it yields. *)
Definition orphan_files (self : t) (patterns : list str)
  : result (list (str * str)) :=
  names ← decode_utf8 (git_ls_files (orphan_patterns patterns));
  let fields := split_sep NUL names in
  orphan_loop self (take (length fields - 1) fields).        (* [:-1] *)

End WorkingTree.

(** What [git ls-files -z] prints for a list of names. *)
Definition ls_files_output (names : list str) : list byte :=
  map byte_of (concat (map (fun name => name ++ [NUL]) names)).

(* ===================================================================== *)
(** ** Properties of the runtime functions *)
(* ===================================================================== *)

(** The model of [hashlib.sha1] agrees with the published test vectors. *)
Example sha1_empty :
  Sha1.hexdigest [] = lit "da39a3ee5e6b4b0d3255bfef95601890afd80709".
Proof. vm_compute. reflexivity. Qed.

Example sha1_hello_world :
  Sha1.hexdigest (bytes_of_ascii "hello world")
  = lit "2aae6c35c94fcfb415dbe95f408b9ce91ee846ed".
Proof. vm_compute. reflexivity. Qed.

Example sha1_two_blocks :
  Sha1.hexdigest (bytes_of_ascii
    "abcdbcdecdefdefgefghfghighijhijkijkljklmklmnlmnomnopnopq")
  = lit "84983e441c3bd26ebaae4aa1f95129e5e54670f1".
Proof. vm_compute. reflexivity. Qed.

Lemma hex8_length x : length (Sha1.hex8 x) = 8%nat.
Proof. reflexivity. Qed.

Lemma hexdigest_length msg : length (Sha1.hexdigest msg) = 40%nat.
Proof.
  unfold Sha1.hexdigest.
  destruct (Sha1.blocks _ _ _) as [[[[h0 h1] h2] h3] h4].
  rewrite !length_app, !hex8_length. reflexivity.
Qed.

Section StrLemmas.

Implicit Types (s t p tok : str) (c : N).

Lemma startswith_app p s : startswith p (p ++ s) = true.
Proof.
  induction p as [|a p IH]; simpl; [done|].
  by rewrite N.eqb_refl, IH.
Qed.

Lemma split_from_nospace tok t s :
  nospace t -> split_from tok (t ++ s) = split_from (tok ++ t) s.
Proof.
  intros Ht. revert tok. induction Ht as [|c t Hc Ht IH]; intros tok; simpl.
  - by rewrite app_nil_r.
  - rewrite Hc, IH. by rewrite <- app_assoc.
Qed.

Lemma split_from_spaces k s :
  split_from [] (replicate k SPACE ++ s) = split_from [] s.
Proof. induction k as [|k IH]; simpl; [done|apply IH]. Qed.

Lemma split_from_space_after tok c s :
  isspace c = true -> tok <> [] ->
  split_from tok ([c] ++ s) = tok :: split_from [] s.
Proof. intros Hc Htok. simpl. rewrite Hc. by destruct tok. Qed.

Lemma split_from_space_end tok c :
  isspace c = true -> tok <> [] -> split_from tok [c] = [tok].
Proof. intros Hc Htok. simpl. rewrite Hc. by destruct tok. Qed.

(** The tokens of what follows the cookie in a V1 and in a V2 record. *)
Lemma split_v1 d : nospace d -> d <> [] -> split (d ++ [LF]) = [d].
Proof.
  intros Hd Hne. unfold split.
  rewrite split_from_nospace, app_nil_l by done.
  by apply split_from_space_end.
Qed.

Lemma split_v2 d s :
  nospace d -> d <> [] -> nospace s -> s <> [] ->
  split (d ++ [SPACE] ++ rjust 20 s ++ [LF]) = [d; s].
Proof.
  intros Hd Hne Hs Hse. unfold split.
  rewrite split_from_nospace, app_nil_l by done.
  rewrite split_from_space_after by done.
  unfold rjust. rewrite <- app_assoc, split_from_spaces.
  rewrite split_from_nospace, app_nil_l by done.
  by rewrite split_from_space_end.
Qed.

(** *** Decimal numerals *)

(** Nothing between ["!"] and U+0084 is whitespace. *)
Lemma isspace_printable c : 33 <= c -> c <= 0x84 -> isspace c = false.
Proof.
  intros H1 H2. unfold isspace.
  rewrite (proj2 (N.leb_gt c 13)) by lia.
  rewrite (proj2 (N.leb_gt c 32)) by lia.
  rewrite (proj2 (N.leb_gt 0x2000 c)) by lia.
  rewrite !(proj2 (N.eqb_neq c _)) by lia.
  by rewrite !andb_false_r.
Qed.

Lemma isdigit_nospace c : isdigit c = true -> isspace c = false.
Proof.
  unfold isdigit. intros [H1 H2]%andb_prop.
  apply N.leb_le in H1, H2. apply isspace_printable; lia.
Qed.

Lemma ishex_nospace c : ishex c = true -> isspace c = false.
Proof.
  unfold ishex. intros [H|H]%orb_prop; apply andb_prop in H as [H1 H2];
    apply N.leb_le in H1, H2; apply isspace_printable; lia.
Qed.

Lemma decimal_fuel_digits fuel n : Forall (fun c => isdigit c = true) (decimal_fuel fuel n).
Proof.
  revert n. induction fuel as [|fuel IH]; intros n; simpl; [constructor|].
  destruct (N.ltb_spec n 10).
  - constructor; [|constructor]. unfold isdigit.
    apply andb_true_intro. split; apply N.leb_le; lia.
  - apply Forall_app. split; [apply IH|].
    constructor; [|constructor]. unfold isdigit.
    assert (n mod 10 < 10) by (apply N.mod_lt; lia).
    apply andb_true_intro. split; apply N.leb_le; [apply N.le_add_r|lia].
Qed.

Lemma decimal_fuel_length fuel n k :
  n < 10 ^ N.of_nat k -> (1 <= k)%nat -> (length (decimal_fuel fuel n) <= k)%nat.
Proof.
  revert n k. induction fuel as [|fuel IH]; intros n k Hn Hk; simpl; [lia|].
  destruct (N.ltb_spec n 10); simpl; [lia|].
  rewrite length_app. simpl.
  destruct k as [|[|k]]; [lia| simpl in Hn; lia |].
  assert (length (decimal_fuel fuel (n / 10)) <= S k)%nat; [|lia].
  apply IH; [|lia].
  apply N.Div0.div_lt_upper_bound.
  replace (N.of_nat (S (S k))) with (N.succ (N.of_nat (S k))) in Hn by lia.
  by rewrite N.pow_succ_r' in Hn.
Qed.

Lemma decimal_nonempty n : decimal n <> [].
Proof.
  unfold decimal. simpl. destruct (n <? 10); [done|].
  by destruct (decimal_fuel _ _).
Qed.

Lemma parse_digits_snoc acc prev s c x d :
  parse_digits acc prev s = Some x -> digit_val c = Some d ->
  parse_digits acc prev (s ++ [c]) = Some (10 * x + d).
Proof.
  intros Hs Hc.
  assert (Hc95 : (c =? 95) = false).
  { unfold digit_val, isdigit in Hc. destruct (N.eqb_spec c 95) as [->|]; [done|done]. }
  revert acc prev Hs. induction s as [|a s IH]; intros acc prev Hs; simpl in *.
  - destruct prev; [|done]. injection Hs as ->. by rewrite Hc95, Hc.
  - destruct (a =? 95).
    + destruct prev; [|done]. by apply IH.
    + destruct (digit_val a); [|done]. by apply IH.
Qed.

Lemma digit_val_digit d : d < 10 -> digit_val (48 + d) = Some d.
Proof.
  intros Hd. unfold digit_val, isdigit.
  destruct (N.leb_spec 48 (48 + d)); [|lia].
  destruct (N.leb_spec (48 + d) 57); [|lia].
  simpl. f_equal. lia.
Qed.

Lemma parse_decimal_fuel fuel n :
  n < 2 ^ N.of_nat fuel -> (1 <= fuel)%nat ->
  parse_digits 0 false (decimal_fuel fuel n) = Some n.
Proof.
  revert n. induction fuel as [|fuel IH]; intros n Hn Hf; [lia|].
  simpl. destruct (N.ltb_spec n 10) as [Hlt|Hge].
  - simpl. destruct (N.eqb_spec (48 + n) 95); [lia|].
    rewrite digit_val_digit by done. simpl. f_equal; lia.
  - replace (N.of_nat (S fuel)) with (N.succ (N.of_nat fuel)) in Hn by lia.
    rewrite N.pow_succ_r' in Hn.
    assert (Hq : n / 10 < 2 ^ N.of_nat fuel).
    { apply N.Div0.div_lt_upper_bound. lia. }
    assert (1 <= fuel)%nat.
    { destruct fuel; [simpl in Hn; lia|lia]. }
    rewrite (parse_digits_snoc 0 false _ _ (n / 10) (n mod 10)).
    + f_equal. symmetry. apply N.div_mod. lia.
    + by apply IH.
    + apply digit_val_digit. apply N.mod_lt. lia.
Qed.

Lemma parse_decimal n : parse_digits 0 false (decimal n) = Some n.
Proof.
  apply parse_decimal_fuel; [|lia].
  eapply N.lt_le_trans; [apply N.size_gt|].
  apply N.pow_le_mono_r; lia.
Qed.

Lemma decimal_digits n : Forall (fun c => isdigit c = true) (decimal n).
Proof. apply decimal_fuel_digits. Qed.

Lemma decimal_nospace n : nospace (decimal n).
Proof.
  eapply Forall_impl; [apply decimal_digits|]. apply isdigit_nospace.
Qed.

(** [int(str(n)) == n] for a natural number. *)
Lemma int_decimal n : int (decimal n) = Ok (Z.of_N n).
Proof.
  pose proof (decimal_digits n) as Hd. pose proof (parse_decimal n) as Hp.
  unfold int. destruct (decimal n) as [|c s] eqn:E.
  - by destruct (decimal_nonempty n).
  - apply Forall_cons_1 in Hd as [Hc _]. unfold isdigit in Hc.
    apply andb_prop in Hc as [H1 H2]. apply N.leb_le in H1, H2.
    destruct (N.eqb_spec c 43); [lia|]. destruct (N.eqb_spec c 45); [lia|].
    rewrite Hp. f_equal. lia.
Qed.

Lemma str_of_int_nonneg z : (0 <= z)%Z -> str_of_int z = decimal (Z.to_N z).
Proof. intros Hz. destruct z; first [done | lia]. Qed.

Lemma rjust_length w s : length (rjust w s) = (w `max` length s)%nat.
Proof. unfold rjust. rewrite length_app, length_replicate. lia. Qed.

(** ["%20d" % z] is 20 characters wide as long as [z] has at most 20
    digits. *)
Lemma fmt_20d_length z :
  (0 <= z < 10 ^ 20)%Z -> length (rjust 20 (str_of_int z)) = 20%nat.
Proof.
  intros Hz. rewrite rjust_length, str_of_int_nonneg by lia.
  assert (length (decimal (Z.to_N z)) <= 20)%nat; [|lia].
  apply decimal_fuel_length; [|lia]. simpl. lia.
Qed.

End StrLemmas.

(* ===================================================================== *)
(** ** The placeholder codec *)
(* ===================================================================== *)

Section Codec.

Implicit Types (d s : str) (n : Z) (environ : gmap str str).

Lemma digest_nospace d : is_digest d -> nospace d.
Proof.
  intros [_ Hd]. eapply Forall_impl; [exact Hd|]. apply ishex_nospace.
Qed.

Lemma digest_nonempty d : is_digest d -> d <> [].
Proof. intros [Hl _] ->. done. Qed.

Lemma decode_cookie s noraise :
  decode (cookie ++ s) noraise
  = (digest ← match split s with
               | d :: _ => Ok d
               | [] => Raise IndexError
               end;
     bytes ← match split s with
              | _ :: p1 :: _ => n ← int p1; Ok (Some n)
              | _ => Ok None
              end;
     Ok (Some digest, bytes)).
Proof.
  unfold decode. rewrite startswith_app.
  by rewrite drop_app_length.
Qed.

(** Decoding a V1 record gives the digest and no size. *)
Lemma decode_v1 d noraise :
  nospace d -> d <> [] ->
  decode (cookie ++ d ++ [LF]) noraise = Ok (Some d, None).
Proof.
  intros Hd Hne. by rewrite decode_cookie, split_v1.
Qed.

(** Decoding a V2 record gives the digest and the size. *)
Lemma decode_v2 d n noraise :
  nospace d -> d <> [] -> (0 <= n)%Z ->
  decode (cookie ++ d ++ [SPACE] ++ rjust 20 (str_of_int n) ++ [LF]) noraise
  = Ok (Some d, Some n).
Proof.
  intros Hd Hne Hn. rewrite decode_cookie, str_of_int_nonneg by done.
  rewrite split_v2 by (done || apply decimal_nospace || apply decimal_nonempty).
  simpl. rewrite int_decimal. simpl. do 3 f_equal. lia.
Qed.

Lemma encode_is_v1 environ d b :
  environ !! GIT_FAT_VERSION = Some (lit "1") ->
  encode environ d b = encode_v1 d b.
Proof. intros H. unfold encode. by rewrite decide_True. Qed.

Lemma encode_is_v2 environ d b :
  environ !! GIT_FAT_VERSION <> Some (lit "1") ->
  encode environ d b = encode_v2 d b.
Proof. intros H. unfold encode. by rewrite decide_False. Qed.

(** Without [noraise], a decoded digest is never [None]. *)
Lemma decode_strict_digest s o b : decode s false = Ok (o, b) -> is_Some o.
Proof.
  unfold decode. destruct (startswith cookie s); [|done].
  destruct (split _) as [|p0 [|p1 ?]]; simpl; try done.
  - intros [= <- _]. by eexists.
  - destruct (int p1); simpl; [|done]. intros [= <- _]. by eexists.
Qed.

Lemma decode_not_cookie s :
  startswith cookie s = false ->
  decode s false = Raise (DecodeError (lit "Could not decode " ++ s))
  /\ decode s true = Ok (None, None).
Proof. intros H. unfold decode. by rewrite H. Qed.

End Codec.




(** The magic length computed at startup: 53 for V1, 74 for V2. *)
Lemma magic_len_value (environ : gmap str str) :
  _calculate_magic_len environ
  = Ok (if decide (environ !! GIT_FAT_VERSION = Some (lit "1"))
        then 53%nat else 74%nat).
Proof.
  unfold _calculate_magic_len, encode. case_decide; vm_compute; reflexivity.
Qed.

Lemma init_value (environ : gmap str str) :
  __init__ environ
  = Ok (Self (if decide (environ !! GIT_FAT_VERSION = Some (lit "1"))
              then 53%nat else 74%nat) [53; 74]%nat).
Proof.
  unfold __init__. rewrite magic_len_value. case_decide; vm_compute; reflexivity.
Qed.

Lemma encode_v1_length (d : str) (b : option Z) (s : str) :
  length d = 40%nat -> encode_v1 d b = Ok s -> length s = 53%nat.
Proof.
  intros Hd [= <-]. change (length (cookie ++ d ++ [LF]) = 53%nat).
  rewrite !length_app, Hd. reflexivity.
Qed.

Lemma encode_v2_length (d : str) (n : Z) (s : str) :
  length d = 40%nat -> (0 <= n < 10 ^ 20)%Z ->
  encode_v2 d (Some n) = Ok s -> length s = 74%nat.
Proof.
  intros Hd Hn [= <-].
  change (length (cookie ++ d ++ [SPACE] ++ rjust 20 (str_of_int n) ++ [LF])
          = 74%nat).
  rewrite !length_app, Hd, fmt_20d_length by done. reflexivity.
Qed.




(** C10. [decode] with [noraise=True] raises on strings that start with
    the cookie and carry no token ([IndexError] from [parts[0]]) or a
    second token that is not a number ([ValueError] from [int]);
    [decode_clean] passes the exceptions on. *)
Theorem decode_noraise_raises :
  decode (lit "#$# git-fat ") true = Raise IndexError /\
  decode (lit "#$# git-fat abc xyz") true = Raise ValueError /\
  decode_clean (lit "#$# git-fat ") = Raise IndexError /\
  decode_clean (lit "#$# git-fat abc xyz") = Raise ValueError.
Proof. repeat split; vm_compute; reflexivity. Qed.

(* ===================================================================== *)
(** ** Streams, blocks and the monad of the filters *)
(* ===================================================================== *)

Section Streams.

Variable BLOCK_SIZE : nat.

Implicit Types (s : str) (w : world).

Lemma take_nil_inv s : (0 < BLOCK_SIZE)%nat -> take BLOCK_SIZE s = [] -> s = [].
Proof. destruct s, BLOCK_SIZE; simpl; (done || lia). Qed.

Lemma readblocks_fuel_concat fuel s :
  (0 < BLOCK_SIZE)%nat -> (length s < fuel)%nat ->
  concat (readblocks_fuel BLOCK_SIZE fuel s) = s.
Proof.
  intros HB. revert s. induction fuel as [|fuel IH]; intros s Hl; [lia|].
  simpl. destruct (take BLOCK_SIZE s) as [|c data] eqn:E.
  - symmetry. by apply take_nil_inv.
  - rewrite <- E. cbn [concat]. rewrite IH; [apply take_drop|].
    rewrite length_drop. destruct s; [by destruct BLOCK_SIZE|]. simpl in *. lia.
Qed.

(** The blocks of a stream, put together, are the stream. *)
Lemma readblocks_concat s :
  (0 < BLOCK_SIZE)%nat -> concat (readblocks BLOCK_SIZE s) = s.
Proof. intros HB. apply readblocks_fuel_concat; [done|lia]. Qed.

Lemma readblocks_nonempty s :
  take BLOCK_SIZE s <> [] ->
  exists rest, readblocks BLOCK_SIZE s = take BLOCK_SIZE s :: rest.
Proof.
  intros H. unfold readblocks. simpl.
  destruct (take BLOCK_SIZE s); [done|]. by eexists.
Qed.

Lemma readblocks_empty s :
  take BLOCK_SIZE s = [] -> readblocks BLOCK_SIZE s = [].
Proof. intros H. unfold readblocks. simpl. by rewrite H. Qed.

Lemma cat_iter_spec (blocks : list str) w :
  cat_iter blocks w
  = (Ok tt, World (objdir w) (umask_bits w) (out w ++ concat blocks)).
Proof.
  unfold cat_iter. revert w.
  induction blocks as [|b blocks IH]; intros [m u o]; simpl.
  - by rewrite app_nil_r.
  - unfold mbind, M_bind. simpl. rewrite IH. simpl. by rewrite app_assoc.
Qed.

End Streams.

Lemma utf8_encode_app (a b : str) :
  utf8_encode (a ++ b)
  = match utf8_encode a, utf8_encode b with
    | Some x, Some y => Some (x ++ y)
    | _, _ => None
    end.
Proof.
  induction a as [|c a IH]; simpl.
  - by destruct (utf8_encode b).
  - rewrite IH. destruct (encode_char c); [|done].
    destruct (utf8_encode a); [|done].
    destruct (utf8_encode b); [|done].
    by rewrite app_assoc.
Qed.



(** *** The monad of the filters *)

Lemma M_bind_unfold {A B} (m : M A) (k : A -> M B) (w : world) :
  (m ≫= k) w
  = match m w with
    | (Ok a, w') => k a w'
    | (Raise e, w') => (Raise e, w')
    end.
Proof. reflexivity. Qed.

Lemma M_bind_ret {A B} (a : A) (k : A -> M B) (w : world) :
  (mret a ≫= k) w = k a w.
Proof. reflexivity. Qed.

Lemma M_bind_lift_ok {A B} (a : A) (k : A -> M B) (w : world) :
  (lift (Ok a) ≫= k) w = k a w.
Proof. reflexivity. Qed.

Lemma M_bind_lift_raise {A B} (e : exn) (k : A -> M B) (w : world) :
  (lift (Raise e) ≫= k) w = (Raise e, w).
Proof. reflexivity. Qed.

(** ** UTF-8: encoding and strict decoding are inverse to each other *)
(* ===================================================================== *)

Section Utf8.

Local Ltac divlia := zify; Z.to_euclidean_division_equations; lia.

(** Decide a comparison that occurs in the goal, by arithmetic. *)
Local Ltac decide_tests :=
  repeat first
    [ rewrite (proj2 (N.ltb_lt _ _)) by divlia
    | rewrite (proj2 (N.ltb_ge _ _)) by divlia
    | rewrite (proj2 (N.leb_le _ _)) by divlia
    | rewrite (proj2 (N.leb_gt _ _)) by divlia
    | rewrite (proj2 (N.eqb_eq _ _)) by divlia
    | rewrite (proj2 (N.eqb_neq _ _)) by divlia ].

Lemma to_N_byte_of (n : N) : n < 256 -> Byte.to_N (byte_of n) = n.
Proof.
  intros Hn. unfold byte_of. rewrite N.mod_small by done.
  destruct (Byte.of_N n) as [b|] eqn:E.
  - by apply Byte.to_of_N.
  - apply Byte.of_N_None_iff in E. lia.
Qed.

Lemma byte_of_to_N (b : byte) : byte_of (Byte.to_N b) = b.
Proof.
  unfold byte_of. pose proof (Byte.to_N_bounded b).
  rewrite N.mod_small by lia. by rewrite Byte.of_to_N.
Qed.

Lemma utf8_decode_cons (b0 : byte) (r0 : list byte) :
  utf8_decode (b0 :: r0)
  = let n0 := Byte.to_N b0 in
    if n0 <? 0x80 then cons n0 <$> utf8_decode r0
    else match r0 with
    | [] => None
    | b1 :: r1 =>
        if in_range 0xC2 0xDF b0 then
          if in_range 0x80 0xBF b1
          then cons ((n0 - 0xC0) * 64 + cont b1) <$> utf8_decode r1
          else None
        else match r1 with
        | [] => None
        | b2 :: r2 =>
            if in_range 0xE0 0xEF b0 then
              if in_range (if n0 =? 0xE0 then 0xA0 else 0x80)
                          (if n0 =? 0xED then 0x9F else 0xBF) b1
                 && in_range 0x80 0xBF b2
              then cons ((n0 - 0xE0) * 4096 + cont b1 * 64 + cont b2)
                     <$> utf8_decode r2
              else None
            else match r2 with
            | [] => None
            | b3 :: r3 =>
                if in_range 0xF0 0xF4 b0
                   && in_range (if n0 =? 0xF0 then 0x90 else 0x80)
                               (if n0 =? 0xF4 then 0x8F else 0xBF) b1
                   && in_range 0x80 0xBF b2 && in_range 0x80 0xBF b3
                then cons ((n0 - 0xF0) * 262144 + cont b1 * 4096
                           + cont b2 * 64 + cont b3) <$> utf8_decode r3
                else None
            end
        end
    end.
Proof. reflexivity. Qed.

Lemma utf8_decode_encode_char (c : N) (b rest : list byte) :
  encode_char c = Some b ->
  utf8_decode (b ++ rest) = cons c <$> utf8_decode rest.
Proof.
  unfold encode_char.
  destruct (N.ltb_spec c 0x80) as [H1|H1].
  { intros [= <-]. cbn [app]. rewrite utf8_decode_cons. cbn zeta.
    rewrite to_N_byte_of by lia. by decide_tests. }
  destruct (N.ltb_spec c 0x800) as [H2|H2].
  { intros [= <-]. cbn [app]. rewrite utf8_decode_cons. cbn zeta.
    unfold in_range, cont. rewrite !to_N_byte_of by divlia.
    decide_tests. cbn [andb]. do 2 f_equal. divlia. }
  destruct (N.ltb_spec c 0x10000) as [H3|H3].
  { destruct (N.leb_spec 0xD800 c) as [H4|H4];
      destruct (N.leb_spec c 0xDFFF) as [H5|H5]; cbn [andb]; [done|..];
      intros [= <-]; cbn [app]; rewrite utf8_decode_cons; cbn zeta;
      unfold in_range, cont; rewrite !to_N_byte_of by divlia.
    all: destruct (N.eqb_spec (0xE0 + c / 4096) 0xE0);
      destruct (N.eqb_spec (0xE0 + c / 4096) 0xED);
      decide_tests; cbn [andb]; do 2 f_equal; divlia. }
  destruct (N.ltb_spec c 0x110000) as [H4|H4]; [|done].
  intros [= <-]. cbn [app]. rewrite utf8_decode_cons. cbn zeta.
  unfold in_range, cont. rewrite !to_N_byte_of by divlia.
  destruct (N.eqb_spec (0xF0 + c / 262144) 0xF0);
    destruct (N.eqb_spec (0xF0 + c / 262144) 0xF4);
    decide_tests; cbn [andb]; do 2 f_equal; divlia.
Qed.

(** Decoding what [str.encode] produced gives the string back. *)
Lemma utf8_decode_encode (s : str) (raw : list byte) :
  utf8_encode s = Some raw -> utf8_decode raw = Some s.
Proof.
  revert raw. induction s as [|c s IH]; intros raw; cbn [utf8_encode].
  - by intros [= <-].
  - destruct (encode_char c) as [b|] eqn:Ec; [|done].
    destruct (utf8_encode s) as [bs|]; [|done]. intros [= <-].
    rewrite (utf8_decode_encode_char c) by done. by rewrite (IH bs).
Qed.

End Utf8.

Section Utf8b.

Local Ltac divlia := zify; Z.to_euclidean_division_equations; lia.

Local Ltac decide_tests :=
  repeat first
    [ rewrite (proj2 (N.ltb_lt _ _)) by divlia
    | rewrite (proj2 (N.ltb_ge _ _)) by divlia
    | rewrite (proj2 (N.leb_le _ _)) by divlia
    | rewrite (proj2 (N.leb_gt _ _)) by divlia
    | rewrite (proj2 (N.eqb_eq _ _)) by divlia
    | rewrite (proj2 (N.eqb_neq _ _)) by divlia ].

(** Name the code point that is about to be encoded. *)
Local Ltac name_code_point c Ec :=
  match goal with
  | |- context [encode_char ?e] => remember e as c eqn:Ec
  end.

Lemma in_range_spec (lo hi : N) (b : byte) :
  in_range lo hi b = true -> lo <= Byte.to_N b /\ Byte.to_N b <= hi.
Proof.
  unfold in_range. intros [H1 H2]%andb_prop. split; by apply N.leb_le.
Qed.

(** Encoding what the strict decoder accepted gives the bytes back. *)
Lemma utf8_encode_decode_le (k : nat) (raw : list byte) (s : str) :
  (length raw <= k)%nat ->
  utf8_decode raw = Some s -> utf8_encode s = Some raw.
Proof.
  revert raw s. induction k as [|k IH]; intros raw s Hk.
  { destruct raw; [|simpl in Hk; lia]. by intros [= <-]. }
  destruct raw as [|b0 r0]; [by intros [= <-]|].
  rewrite utf8_decode_cons. cbn zeta.
  pose proof (Byte.to_N_bounded b0) as Hb0.
  pose proof (byte_of_to_N b0) as Eb0.
  remember (Byte.to_N b0) as n0 eqn:En0.
  cbn [length] in Hk.
  destruct (N.ltb_spec n0 0x80) as [H1|H1].
  { destruct (utf8_decode r0) as [s'|] eqn:E; [|done]. intros [= <-].
    cbn [utf8_encode]. rewrite (IH r0 s') by (done || lia).
    unfold encode_char. decide_tests. by rewrite Eb0. }
  destruct r0 as [|b1 r1]; [done|].
  pose proof (Byte.to_N_bounded b1) as Hb1.
  pose proof (byte_of_to_N b1) as Eb1.
  unfold cont. cbn [length] in Hk.
  destruct (in_range 0xC2 0xDF b0) eqn:R0.
  { apply in_range_spec in R0 as [R0 R0']. rewrite <- En0 in R0, R0'.
    destruct (in_range 0x80 0xBF b1) eqn:R1; [|done].
    apply in_range_spec in R1 as [R1 R1'].
    remember (Byte.to_N b1) as n1 eqn:En1.
    destruct (utf8_decode r1) as [s'|] eqn:E; [|done]. intros [= <-].
    cbn [utf8_encode]. rewrite (IH r1 s') by (done || lia).
    name_code_point c Ec.
    assert (Hc0 : 0xC0 + c / 64 = n0) by (subst c; divlia).
    assert (Hc1 : 0x80 + c mod 64 = n1) by (subst c; divlia).
    assert (Hlo : 0x80 <= c) by (subst c; divlia).
    assert (Hhi : c < 0x800) by (subst c; divlia).
    clear Ec. unfold encode_char. decide_tests.
    by rewrite Hc0, Hc1, Eb0, Eb1. }
  destruct r1 as [|b2 r2]; [done|].
  pose proof (Byte.to_N_bounded b2) as Hb2.
  pose proof (byte_of_to_N b2) as Eb2.
  cbn [length] in Hk.
  destruct (in_range 0xE0 0xEF b0) eqn:R0e.
  { apply in_range_spec in R0e as [R0e R0e']. rewrite <- En0 in R0e, R0e'.
    destruct (in_range _ _ b1) eqn:R1; [|done].
    destruct (in_range 0x80 0xBF b2) eqn:R2; [|done].
    apply in_range_spec in R1 as [R1 R1'], R2 as [R2 R2'].
    remember (Byte.to_N b1) as n1 eqn:En1.
    remember (Byte.to_N b2) as n2 eqn:En2.
    cbn [andb].
    destruct (utf8_decode r2) as [s'|] eqn:E; [|done]. intros [= <-].
    cbn [utf8_encode]. rewrite (IH r2 s') by (done || lia).
    name_code_point c Ec.
    destruct (N.eqb_spec n0 0xE0); destruct (N.eqb_spec n0 0xED);
      assert (Hc0 : 0xE0 + c / 4096 = n0) by (subst c; divlia);
      assert (Hc1 : 0x80 + c / 64 mod 64 = n1) by (subst c; divlia);
      assert (Hc2 : 0x80 + c mod 64 = n2) by (subst c; divlia);
      assert (Hlo : 0x800 <= c) by (subst c; divlia);
      assert (Hhi : c < 0x10000) by (subst c; divlia);
      assert (Hsur : c < 0xD800 \/ 0xDFFF < c) by (subst c; divlia);
      clear Ec; destruct Hsur; try (exfalso; divlia);
      unfold encode_char; decide_tests; rewrite ?andb_false_r; cbn [andb];
      by rewrite Hc0, Hc1, Hc2, Eb0, Eb1, Eb2. }
  destruct r2 as [|b3 r3]; [done|].
  pose proof (Byte.to_N_bounded b3) as Hb3.
  pose proof (byte_of_to_N b3) as Eb3.
  cbn [length] in Hk.
  destruct (in_range 0xF0 0xF4 b0) eqn:R0f; [|done].
  apply in_range_spec in R0f as [R0f R0f']. rewrite <- En0 in R0f, R0f'.
  destruct (in_range _ _ b1) eqn:R1; [|done].
  destruct (in_range 0x80 0xBF b2) eqn:R2; [|done].
  destruct (in_range 0x80 0xBF b3) eqn:R3; [|done].
  apply in_range_spec in R1 as [R1 R1'], R2 as [R2 R2'], R3 as [R3 R3'].
  remember (Byte.to_N b1) as n1 eqn:En1.
  remember (Byte.to_N b2) as n2 eqn:En2.
  remember (Byte.to_N b3) as n3 eqn:En3. cbn [andb].
  destruct (utf8_decode r3) as [s'|] eqn:E; [|done]. intros [= <-].
  cbn [utf8_encode]. rewrite (IH r3 s') by (done || lia).
  name_code_point c Ec.
  destruct (N.eqb_spec n0 0xF0); destruct (N.eqb_spec n0 0xF4);
    assert (Hc0 : 0xF0 + c / 262144 = n0) by (subst c; divlia);
    assert (Hc1 : 0x80 + c / 4096 mod 64 = n1) by (subst c; divlia);
    assert (Hc2 : 0x80 + c / 64 mod 64 = n2) by (subst c; divlia);
    assert (Hc3 : 0x80 + c mod 64 = n3) by (subst c; divlia);
    assert (Hlo : 0x10000 <= c) by (subst c; divlia);
    assert (Hhi : c < 0x110000) by (subst c; divlia);
    clear Ec; try (exfalso; divlia); unfold encode_char; decide_tests;
    by rewrite Hc0, Hc1, Hc2, Hc3, Eb0, Eb1, Eb2, Eb3.
Qed.

Lemma utf8_encode_decode (raw : list byte) (s : str) :
  utf8_decode raw = Some s -> utf8_encode s = Some raw.
Proof. by apply (utf8_encode_decode_le (length raw)). Qed.

End Utf8b.

(* ===================================================================== *)
(** ** Text streams: newlines, and text that can be encoded *)
(* ===================================================================== *)

Section TextLemmas.

(** Text without CR is read as it is. *)
Lemma universal_newlines_no_CR (s : str) :
  Forall (fun c => c <> CR) s -> universal_newlines s = s.
Proof.
  induction 1 as [|c s Hc Hs IH]; [done|]. cbn [universal_newlines].
  rewrite (proj2 (N.eqb_neq c CR)) by done. by rewrite IH.
Qed.

(** Newline translation only drops characters or puts LF for CR. *)
Lemma universal_newlines_elem_le (n : nat) (s : str) (c : N) :
  (length s <= n)%nat ->
  c ∈ universal_newlines s -> c ∈ s \/ c = LF.
Proof.
  revert s. induction n as [|n IH]; intros s Hn.
  - destruct s; [|cbn in Hn; lia]. by intros ?%elem_of_nil.
  - destruct s as [|a s]; [by intros ?%elem_of_nil|]. cbn [length] in Hn.
    cbn [universal_newlines]. destruct (a =? CR).
    + intros [->|Hc]%elem_of_cons; [by right|].
      destruct s as [|d s]; [by apply elem_of_nil in Hc|].
      cbn [length] in Hn. destruct (d =? LF).
      * apply IH in Hc as [Hc| ->]; [|by right|lia].
        left. by do 2 right.
      * apply IH in Hc as [Hc| ->]; [|by right|cbn [length]; lia].
        left. by right.
    + intros [->|Hc]%elem_of_cons; [left; by left|].
      apply IH in Hc as [Hc| ->]; [|by right|lia]. left. by right.
Qed.

Lemma universal_newlines_elem (s : str) (c : N) :
  c ∈ universal_newlines s -> c ∈ s \/ c = LF.
Proof. by apply (universal_newlines_elem_le (length s)). Qed.

(** A text can be encoded when each of its characters can. *)
Lemma utf8_encode_is_Some (s : str) :
  is_Some (utf8_encode s) <-> Forall (fun c => is_Some (encode_char c)) s.
Proof.
  induction s as [|c s IH]; cbn [utf8_encode].
  - split; [constructor | by eexists].
  - rewrite Forall_cons, <- IH. destruct (encode_char c) as [b|].
    + destruct (utf8_encode s) as [bs|].
      * split; [intros _; split; by eexists | by eexists].
      * split; [by intros [? ?] | by intros [_ [? ?]]].
    + split; [by intros [? ?] | by intros [[? ?] _]].
Qed.

(** What the strict decoder returns can be encoded again. *)
Lemma utf8_decode_encodable (raw : list byte) (s : str) :
  utf8_decode raw = Some s -> Forall (fun c => is_Some (encode_char c)) s.
Proof.
  intros H. apply utf8_encode_is_Some. apply utf8_encode_decode in H.
  by eexists.
Qed.

Lemma universal_newlines_encodable (s : str) :
  Forall (fun c => is_Some (encode_char c)) s ->
  Forall (fun c => is_Some (encode_char c)) (universal_newlines s).
Proof.
  rewrite !Forall_forall. intros Hs c Hc.
  apply universal_newlines_elem in Hc as [Hc| ->]; [by apply Hs|].
  by eexists.
Qed.

Lemma utf8_valid_prefix_upto_decodes (n : nat) (bs : list byte) :
  exists k, utf8_decode (take k bs) = Some (utf8_valid_prefix_upto n bs).
Proof.
  induction n as [|n IH]; cbn [utf8_valid_prefix_upto].
  - destruct (utf8_decode (take 0 bs)) as [s|] eqn:E; [by exists 0%nat|].
    by exists 0%nat.
  - destruct (utf8_decode (take (S n) bs)) as [s|] eqn:E; [by exists (S n)|].
    exact IH.
Qed.

Lemma utf8_valid_prefix_encodable (bs : list byte) :
  Forall (fun c => is_Some (encode_char c)) (utf8_valid_prefix bs).
Proof.
  destruct (utf8_valid_prefix_upto_decodes (length bs) bs) as [k Hk].
  by eapply utf8_decode_encodable.
Qed.

(** A valid file has no invalid prefix: the two decoders agree on it. *)
Lemma utf8_valid_prefix_valid (bs : list byte) (s : str) :
  utf8_decode bs = Some s -> utf8_valid_prefix bs = s.
Proof.
  intros H. unfold utf8_valid_prefix.
  destruct (length bs) eqn:E; cbn [utf8_valid_prefix_upto];
    rewrite <- E, firstn_all, H; done.
Qed.

(** What [logging.debug] does to the state. *)
Lemma logging_debug_spec (environ : gmap str str) (msg : str) (w : world) :
  logging_debug environ msg w
  = (Ok tt, World (objdir w) (umask_bits w) (out w ++ debug_text environ msg)).
Proof.
  unfold logging_debug, debug_text. destruct (environ !! GIT_FAT_VERBOSE).
  - reflexivity.
  - destruct w. cbn. by rewrite app_nil_r.
Qed.

(** Without [GIT_FAT_VERBOSE] a debug message adds nothing. *)
Lemma debug_text_quiet (environ : gmap str str) (msg : str) :
  environ !! GIT_FAT_VERBOSE = None -> debug_text environ msg = [].
Proof. intros H. unfold debug_text. by rewrite H. Qed.

(** Hashing the blocks of a text that can be encoded. *)
Lemma hash_blocks_spec (blocks : list str) (h raw : list byte) :
  utf8_encode (concat blocks) = Some raw ->
  hash_blocks blocks h = Ok (h ++ raw).
Proof.
  revert h raw. induction blocks as [|b blocks IH]; intros h raw; cbn [concat hash_blocks].
  - intros [= <-]. by rewrite app_nil_r.
  - rewrite utf8_encode_app.
    destruct (utf8_encode b) as [rb|]; [|done].
    destruct (utf8_encode (concat blocks)) as [rr|] eqn:E; [|done].
    intros [= <-]. rewrite (IH _ rr) by done. by rewrite app_assoc.
Qed.

End TextLemmas.

(* ===================================================================== *)
(** ** filter_clean *)
(* ===================================================================== *)

Section Filters.
Variable BLOCK_SIZE : nat.
Variable objdir_path : str.

Lemma alter_append_nil (tmp : str) (m : gmap str file) :
  alter (fun f => File (f_mode f) (f_data f ++ [])) tmp m = m.
Proof. apply alter_id. intros [md dt] _. cbn. by rewrite app_nil_r. Qed.

Lemma alter_append_app (tmp : str) (m : gmap str file) (a b : list byte) :
  alter (fun f => File (f_mode f) (f_data f ++ b)) tmp
    (alter (fun f => File (f_mode f) (f_data f ++ a)) tmp m)
  = alter (fun f => File (f_mode f) (f_data f ++ a ++ b)) tmp m.
Proof.
  rewrite alter_alter_eq. apply alter_ext. intros [md dt] _. cbn.
  by rewrite app_assoc.
Qed.

Lemma clean_block_rest (self : t) (tmp block : str) (l : locals) (w : world)
    (b : list byte) :
  firstblock l = false -> utf8_encode block = Some b ->
  clean_block self tmp block l w
  = (Ok (Locals (h l ++ b) (bytes l + Z.of_nat (length block)) (ishanging l) false),
     if ishanging l
     then World (objdir w) (umask_bits w) (out w ++ block)
     else set_objdir w
            (alter (fun f => File (f_mode f) (f_data f ++ b)) tmp (objdir w))).
Proof.
  intros Hf Hb. unfold clean_block. rewrite Hf, M_bind_ret, Hb, M_bind_lift_ok.
  destruct (ishanging l); rewrite M_bind_unfold.
  - reflexivity.
  - unfold file_write. by rewrite Hb.
Qed.

Lemma clean_block_first (self : t) (tmp block : str) (w : world)
    (b : list byte) (hang : bool) :
  (if decide (length block = magiclen self)
   then d ← decode_clean (take (magiclen self) block); Ok (truthy d)
   else Ok false) = Ok hang ->
  utf8_encode block = Some b ->
  clean_block self tmp block (Locals [] 0 false true) w
  = (Ok (Locals b (Z.of_nat (length block)) hang false),
     if hang
     then World (objdir w) (umask_bits w) (out w ++ block)
     else set_objdir w
            (alter (fun f => File (f_mode f) (f_data f ++ b)) tmp (objdir w))).
Proof.
  intros Hh Hb. unfold clean_block. cbn [firstblock ishanging h bytes].
  rewrite M_bind_unfold.
  replace ((if decide (length block = magiclen self)
            then d ← lift (decode_clean (take (magiclen self) block));
                 mret (truthy d)
            else mret false : M bool) w) with (Ok hang, w).
  2:{ case_decide; [|by injection Hh as <-].
      rewrite M_bind_unfold. unfold lift.
      destruct (decode_clean _) as [d|e]; [|done]. by injection Hh as <-. }
  rewrite Hb, M_bind_lift_ok.
  destruct hang; rewrite M_bind_unfold.
  - reflexivity.
  - unfold file_write. by rewrite Hb.
Qed.

(** The blocks after the first one: hashed, counted and written to
    wherever [outstream] points. *)
Lemma clean_rest (self : t) (tmp : str) (blocks : list str) (raw : list byte)
    (hb : list byte) (n : Z) (hang : bool) (w : world) :
  utf8_encode (concat blocks) = Some raw ->
  for_each (clean_block self tmp) blocks (Locals hb n hang false) w
  = (Ok (Locals (hb ++ raw) (n + Z.of_nat (length (concat blocks))) hang false),
     if hang
     then World (objdir w) (umask_bits w) (out w ++ concat blocks)
     else set_objdir w
            (alter (fun f => File (f_mode f) (f_data f ++ raw)) tmp (objdir w))).
Proof.
  revert raw hb n w. induction blocks as [|b blocks IH]; intros raw hb n w Hraw.
  - injection Hraw as <-. cbn [for_each concat length]. unfold mret, M_ret.
    rewrite app_nil_r, Z.add_0_r. f_equal.
    destruct hang, w as [m u o]; unfold set_objdir; cbn.
    + by rewrite app_nil_r.
    + by rewrite alter_append_nil.
  - cbn [concat] in Hraw. rewrite utf8_encode_app in Hraw.
    destruct (utf8_encode b) as [rb|] eqn:Eb; [|done].
    destruct (utf8_encode (concat blocks)) as [rbs|] eqn:Ebs; [|done].
    injection Hraw as <-.
    cbn [for_each]. rewrite M_bind_unfold.
    rewrite (clean_block_rest _ _ _ _ _ rb) by done.
    cbn [h bytes ishanging]. rewrite (IH rbs) by done.
    cbn [concat]. rewrite length_app, Nat2Z.inj_add, <- app_assoc, Z.add_assoc.
    f_equal. destruct hang, w as [m u o]; unfold set_objdir; cbn.
    + by rewrite <- app_assoc.
    + by rewrite alter_append_app.
Qed.


(** The loop of [filter_clean] on input that is not a hanging placeholder:
    every block is hashed as UTF-8, counted in characters and written to
    the temporary file. *)
Lemma clean_loop_not_hanging (self : t) (tmpname instream : str)
    (raw : list byte) (m : gmap str file) (u : Z) (o : str) :
  (0 < BLOCK_SIZE)%nat ->
  utf8_encode instream = Some raw ->
  (length (take BLOCK_SIZE instream) <> magiclen self
   \/ decode_clean (take BLOCK_SIZE instream) = Ok None) ->
  exists fb,
    for_each (clean_block self tmpname) (readblocks BLOCK_SIZE instream)
      (Locals [] 0 false true) (World (<[tmpname := File 384 []]> m) u o)
    = (Ok (Locals raw (Z.of_nat (length instream)) false fb),
       World (<[tmpname := File 384 raw]> m) u o).
Proof.
  intros HB Hraw Hnh.
  destruct (take BLOCK_SIZE instream) as [|c b0] eqn:E.
  - apply take_nil_inv in E as ->; [|done]. injection Hraw as <-.
    exists true. by rewrite readblocks_empty by apply take_nil.
  - rewrite <- E in Hnh.
    assert (Hne : take BLOCK_SIZE instream <> []) by by rewrite E.
    destruct (readblocks_nonempty BLOCK_SIZE instream Hne) as [rest Hblocks].
    pose proof (readblocks_concat BLOCK_SIZE instream HB) as Hcat.
    rewrite Hblocks in Hcat. cbn [concat] in Hcat.
    rewrite <- Hcat, utf8_encode_app in Hraw.
    destruct (utf8_encode (take BLOCK_SIZE instream)) as [rb|] eqn:Eb; [|done].
    destruct (utf8_encode (concat rest)) as [rr|] eqn:Er; [|done].
    injection Hraw as <-.
    exists false. rewrite Hblocks. cbn [for_each]. rewrite M_bind_unfold.
    rewrite (clean_block_first _ _ _ _ rb false); [| |done].
    2:{ case_decide as Hl; [|done]. destruct Hnh as [Hnh|Hnh]; [done|].
        rewrite take_ge by lia. by rewrite Hnh. }
    rewrite (clean_rest _ _ _ rr) by done.
    unfold set_objdir. cbn [objdir umask_bits out].
    rewrite alter_append_app, alter_insert_eq. cbn [f_mode f_data app].
    by rewrite <- Nat2Z.inj_add, <- length_app, Hcat.
Qed.

(** Content that is not in the object directory: the [else] branch
    evaluates the bare name [umask], which is bound nowhere.  The
    [finally] clause removes the temporary file, nothing is stored and
    nothing is written. *)
Lemma filter_clean_new (self : t) (environ : gmap str str)
    (tmpname instream : str) (raw : list byte) (w : world) :
  (0 < BLOCK_SIZE)%nat ->
  objdir w !! tmpname = None ->
  tmpname <> Sha1.hexdigest raw ->
  utf8_encode instream = Some raw ->
  (length (take BLOCK_SIZE instream) <> magiclen self
   \/ decode_clean (take BLOCK_SIZE instream) = Ok None) ->
  objdir w !! Sha1.hexdigest raw = None ->
  filter_clean BLOCK_SIZE objdir_path self environ tmpname instream w
  = (Raise (NameError (lit "umask")), w).
Proof.
  intros HB Htmp Hne Hraw Hnh Hnew. destruct w as [m u o].
  cbn [objdir umask_bits out] in *.
  unfold filter_clean, mkstemp, filter_clean_try, set_objdir.
  cbn [objdir umask_bits out].
  destruct (clean_loop_not_hanging self tmpname instream raw m u o HB Hraw Hnh)
    as [fb ->].
  cbn [ishanging negb h bytes]. rewrite M_bind_unfold.
  unfold path_exists. cbn [objdir]. rewrite lookup_insert_ne by done.
  rewrite Hnew. rewrite bool_decide_eq_false_2 by (intros [? ?]; done).
  rewrite M_bind_unfold. unfold unbound at 1, lift at 1. cbn beta iota.
  unfold os_remove, set_objdir. cbn [objdir umask_bits out].
  rewrite lookup_insert_eq. cbn [objdir umask_bits out].
  by rewrite delete_insert_id.
Qed.

(** Content whose blob is in the object directory: the temporary file
    is removed, the directory is left as it was, and the output receives
    the debug message, when there is one, and the placeholder for the
    digest and the number of characters read. *)
Lemma filter_clean_stored (self : t) (environ : gmap str str)
    (tmpname instream : str) (raw : list byte) (f : file) (p : str)
    (w : world) :
  (0 < BLOCK_SIZE)%nat ->
  objdir w !! tmpname = None ->
  tmpname <> Sha1.hexdigest raw ->
  utf8_encode instream = Some raw ->
  (length (take BLOCK_SIZE instream) <> magiclen self
   \/ decode_clean (take BLOCK_SIZE instream) = Ok None) ->
  objdir w !! Sha1.hexdigest raw = Some f ->
  encode environ (Sha1.hexdigest raw) (Some (Z.of_nat (length instream)))
  = Ok p ->
  filter_clean BLOCK_SIZE objdir_path self environ tmpname instream w
  = (Ok tt,
     World (objdir w) (umask_bits w)
       (out w
        ++ debug_text environ (cache_exists_msg objdir_path (Sha1.hexdigest raw))
        ++ p)).
Proof.
  intros HB Htmp Hne Hraw Hnh Hold Hp. destruct w as [m u o].
  cbn [objdir umask_bits out] in *.
  unfold filter_clean, mkstemp, filter_clean_try, set_objdir.
  cbn [objdir umask_bits out].
  destruct (clean_loop_not_hanging self tmpname instream raw m u o HB Hraw Hnh)
    as [fb ->].
  cbn [ishanging negb h bytes]. rewrite M_bind_unfold.
  unfold path_exists. cbn [objdir]. rewrite lookup_insert_ne by done.
  rewrite Hold. rewrite bool_decide_eq_true_2 by by eexists.
  rewrite M_bind_unfold, logging_debug_spec. cbn [objdir umask_bits out].
  unfold os_remove, set_objdir. cbn [objdir umask_bits out].
  rewrite lookup_insert_eq, delete_insert_id by done.
  rewrite M_bind_unfold. unfold lift. rewrite Hp. unfold write.
  cbn [objdir umask_bits out]. by rewrite app_assoc.
Qed.

Lemma encode_some_ok (environ : gmap str str) (d : str) (n : Z) :
  exists p, encode environ d (Some n) = Ok p.
Proof. unfold encode. case_decide; by eexists. Qed.

Lemma hang_test_run (self : t) (block : str) (l : locals) (w : world) :
  exists r,
    ((if firstblock l then
        if decide (length block = magiclen self) then
          d ← lift (decode_clean (take (magiclen self) block));
          mret (truthy d)
        else mret false
      else mret false) : M bool) w = (r, w).
Proof.
  destruct (firstblock l); [|by eexists].
  case_decide; [|by eexists].
  rewrite M_bind_unfold. unfold lift.
  destruct (decode_clean _); by eexists.
Qed.

(** One turn of the loop of [filter_clean] touches nothing in the object
    directory but the temporary file, and as long as the input is not
    hanging the temporary file holds exactly the bytes that were hashed. *)
Lemma clean_block_inv (self : t) (tmp block : str) (l : locals) (w w1 : world)
    (r : result locals) (m : gmap str file) (data : list byte) :
  objdir w = <[tmp := File 384 data]> m ->
  (ishanging l = false -> h l = data) ->
  clean_block self tmp block l w = (r, w1) ->
  exists data',
    objdir w1 = <[tmp := File 384 data']> m
    /\ umask_bits w1 = umask_bits w
    /\ forall l', r = Ok l' -> ishanging l' = false -> h l' = data'.
Proof.
  intros Hm Hh. unfold clean_block. rewrite M_bind_unfold.
  destruct (hang_test_run self block l w) as [rh ->].
  destruct rh as [hang|e]; [|intros [= <- <-]; by exists data].
  destruct (utf8_encode block) as [b|] eqn:E;
    [|rewrite M_bind_lift_raise; intros [= <- <-]; by exists data].
  rewrite M_bind_lift_ok, M_bind_unfold.
  destruct (if hang then true else ishanging l) eqn:Eh.
  - intros [= <- <-]. exists data. split; [done|]. split; [done|].
    intros l' [= <-]. cbn [ishanging]. done.
  - unfold file_write. rewrite E. intros [= <- <-]. exists (data ++ b).
    unfold set_objdir. cbn [objdir umask_bits].
    rewrite Hm, alter_insert_eq. cbn [f_mode f_data].
    split; [done|]. split; [done|].
    intros l' [= <-] _. cbn [h]. rewrite Hh; [done|]. by destruct hang.
Qed.

Lemma clean_loop_inv (self : t) (tmp : str) (blocks : list str) (l : locals)
    (w w1 : world) (r : result locals) (m : gmap str file) (data : list byte) :
  objdir w = <[tmp := File 384 data]> m ->
  (ishanging l = false -> h l = data) ->
  for_each (clean_block self tmp) blocks l w = (r, w1) ->
  exists data',
    objdir w1 = <[tmp := File 384 data']> m
    /\ umask_bits w1 = umask_bits w
    /\ forall l', r = Ok l' -> ishanging l' = false -> h l' = data'.
Proof.
  revert l w data. induction blocks as [|b blocks IH]; intros l w data Hm Hh.
  - cbn [for_each]. intros [= <- <-]. exists data. split; [done|].
    split; [done|]. by intros l' [= <-].
  - cbn [for_each]. rewrite M_bind_unfold.
    destruct (clean_block self tmp b l w) as [[l1|e] w2] eqn:Eb.
    + destruct (clean_block_inv _ _ _ _ _ _ _ _ _ Hm Hh Eb)
        as (data1 & Hm1 & Hu1 & Hh1).
      intros Hrun. destruct (IH l1 w2 data1 Hm1 (Hh1 l1 eq_refl) Hrun)
        as (data2 & Hm2 & Hu2 & Hh2).
      exists data2. split; [done|]. split; [congruence|done].
    + destruct (clean_block_inv _ _ _ _ _ _ _ _ _ Hm Hh Eb)
        as (data1 & Hm1 & Hu1 & _).
      intros [= <- <-]. exists data1. split; [done|]. split; [done|]. done.
Qed.

(** [filter_clean] leaves the object directory and the umask as it
    found them, whatever the input and the outcome. *)
Lemma filter_clean_frame (self : t) (environ : gmap str str)
    (tmpname instream : str) (w : world) :
  objdir w !! tmpname = None ->
  let w' := (filter_clean BLOCK_SIZE objdir_path self environ tmpname
               instream w).2 in
  objdir w' = objdir w /\ umask_bits w' = umask_bits w.
Proof.
  intros Htmp. destruct w as [m u o]. cbn [objdir umask_bits] in *.
  unfold filter_clean, mkstemp, filter_clean_try, set_objdir.
  cbn [objdir umask_bits out].
  destruct (for_each _ _ _ _) as [[l|e] w1] eqn:Erun.
  all: pose proof Erun as Hinv;
       eapply (clean_loop_inv _ _ _ _ _ _ _ m []) in Hinv; [|reflexivity|done];
       destruct Hinv as (data & Hm1 & Hu1 & Hh1); destruct w1 as [m1 u1 o1];
       cbn [objdir umask_bits] in *; subst m1 u1.
  2:{ unfold os_remove, set_objdir. cbn [objdir umask_bits out fst snd].
      rewrite lookup_insert_eq. cbn [fst snd objdir umask_bits].
      by rewrite delete_insert_id. }
  destruct (ishanging l) eqn:Ehang; cbn [negb].
  { unfold os_remove, set_objdir. cbn [objdir umask_bits out fst snd].
    rewrite lookup_insert_eq. cbn [fst snd objdir umask_bits].
    by rewrite delete_insert_id. }
  rewrite (Hh1 l eq_refl Ehang).
  rewrite M_bind_unfold. unfold path_exists. cbn [objdir].
  destruct (encode_some_ok environ (Sha1.hexdigest data) (bytes l)) as [p Hp].
  destruct (<[tmpname:=File 384 data]> m !! Sha1.hexdigest data) as [f|] eqn:Ed.
  - rewrite bool_decide_eq_true_2 by by eexists.
    rewrite M_bind_unfold, logging_debug_spec. cbn [objdir umask_bits out].
    unfold os_remove, set_objdir. cbn [objdir umask_bits out].
    rewrite lookup_insert_eq, delete_insert_id by done.
    rewrite M_bind_unfold. unfold lift. rewrite Hp. cbn. done.
  - rewrite bool_decide_eq_false_2 by (intros [? ?]; done).
    rewrite !M_bind_unfold. unfold unbound, lift. cbn beta iota.
    unfold os_remove, set_objdir. cbn [objdir umask_bits out fst snd].
    rewrite lookup_insert_eq. cbn [fst snd objdir umask_bits].
    by rewrite delete_insert_id.
Qed.

End Filters.

(* ===================================================================== *)
(** ** The filters as shipped *)
(* ===================================================================== *)

Section Claims.
Variable BLOCK_SIZE : nat.
Variable objdir_path : str.
Variable delivered : list byte -> nat.

(** C2. For every text [x] that [sys.stdin] delivers: when the first
    [magiclen] characters of [x] do not start with the cookie
    ["#$# git-fat "], smudge does not pass the input through.  The handler
    of [DecodeError] in [decode_stream] evaluates [itertools], which the
    module never imports, and smudge ends with [NameError] having written
    nothing.  (Input that is not valid UTF-8 does not get that far: the
    text layer of [sys.stdin] raises [UnicodeDecodeError] on reading.) *)
Theorem smudge_passthrough_raises (self : t) (environ : gmap str str)
    (x : str) (w : world) :
  startswith cookie (take (magiclen self) x) = false ->
  cmd_filter_smudge BLOCK_SIZE delivered self environ x w
  = (Raise (NameError (lit "itertools")), w).
Proof.
  intros Hc. unfold cmd_filter_smudge, decode_stream.
  destruct (decode_not_cookie _ Hc) as [-> _].
  unfold setup. by rewrite M_bind_ret, M_bind_lift_raise.
Qed.

(** Smudge of a placeholder whose blob is missing: the handler of
    [IOError] evaluates [logger] before it writes. *)
Lemma smudge_missing (self : t) (environ : gmap str str) (x d : str)
    (b : option Z) (w : world) :
  decode (take (magiclen self) x) false = Ok (Some d, b) ->
  objdir w !! d = None ->
  cmd_filter_smudge BLOCK_SIZE delivered self environ x w
  = (Raise (NameError (lit "logger")), w).
Proof.
  intros Hdec Hmiss. unfold cmd_filter_smudge, setup, decode_stream.
  rewrite M_bind_ret, Hdec, M_bind_lift_ok.
  unfold try_except. rewrite M_bind_unfold. unfold open_text.
  rewrite Hmiss. cbn [is_IOError]. by rewrite M_bind_unfold.
Qed.

(** C3. For every placeholder whose blob is absent from the object
    directory, smudge re-emits nothing: the handler of [IOError] evaluates
    [logger], which is bound nowhere, and smudge ends with [NameError]
    and an unchanged output.  The re-encoding that the handler would go on
    to is itself wrong for a V1 record when V2 is written: the record
    carries no size, and [encode] raises [TypeError] on [None]. *)
Theorem smudge_missing_raises (self : t) (environ : gmap str str) (x d : str)
    (b : option Z) (w : world) :
  decode (take (magiclen self) x) false = Ok (Some d, b) ->
  objdir w !! d = None ->
  cmd_filter_smudge BLOCK_SIZE delivered self environ x w
  = (Raise (NameError (lit "logger")), w)
  /\ (b = None -> environ !! GIT_FAT_VERSION <> Some (lit "1") ->
      encode environ d b = Raise TypeError).
Proof.
  intros Hdec Hmiss. split; [by eapply smudge_missing|].
  intros -> Hv. by rewrite encode_is_v2.
Qed.

(** What a turn of the loop of [filter_clean] that ends normally has done
    to the hash and to the counter. *)
Lemma clean_block_hash (self : t) (tmp block : str) (l l1 : locals)
    (w w1 : world) :
  clean_block self tmp block l w = (Ok l1, w1) ->
  exists b, utf8_encode block = Some b
            /\ h l1 = h l ++ b
            /\ bytes l1 = (bytes l + Z.of_nat (length block))%Z.
Proof.
  unfold clean_block. rewrite M_bind_unfold.
  destruct (hang_test_run self block l w) as [rh ->].
  destruct rh as [hang|e]; [|done].
  destruct (utf8_encode block) as [b|] eqn:E;
    [|by rewrite M_bind_lift_raise].
  rewrite M_bind_lift_ok, M_bind_unfold.
  destruct (if hang then true else ishanging l).
  - intros [= <- <-]. by exists b.
  - unfold file_write. rewrite E. intros [= <- <-]. by exists b.
Qed.

Lemma clean_loop_hash (self : t) (tmp : str) (blocks : list str)
    (l l1 : locals) (w w1 : world) :
  for_each (clean_block self tmp) blocks l w = (Ok l1, w1) ->
  exists raw, utf8_encode (concat blocks) = Some raw
              /\ h l1 = h l ++ raw
              /\ bytes l1 = (bytes l + Z.of_nat (length (concat blocks)))%Z.
Proof.
  revert l w. induction blocks as [|b blocks IH]; intros l w.
  - cbn [for_each]. intros [= <- <-]. exists []. cbn.
    by rewrite app_nil_r, Z.add_0_r.
  - cbn [for_each]. rewrite M_bind_unfold.
    destruct (clean_block self tmp b l w) as [[l2|e] w2] eqn:Eb; [|done].
    apply clean_block_hash in Eb as (rb & Hb & Hh & Hn).
    intros (raw & Hraw & Hh' & Hn')%IH.
    exists (rb ++ raw). cbn [concat]. rewrite utf8_encode_app, Hb, Hraw.
    split; [done|]. rewrite Hh', Hh, Hn', Hn, length_app, <- app_assoc.
    split; [done|]. lia.
Qed.

(** When [filter_clean] returns normally, the input could be encoded. *)
Lemma filter_clean_ok_encodable (self : t) (environ : gmap str str)
    (tmpname instream : str) (w w' : world) :
  (0 < BLOCK_SIZE)%nat ->
  filter_clean BLOCK_SIZE objdir_path self environ tmpname instream w
  = (Ok tt, w') ->
  is_Some (utf8_encode instream).
Proof.
  intros HB. unfold filter_clean, mkstemp, filter_clean_try.
  destruct (for_each _ _ _ _) as [[l|e] w1] eqn:Erun.
  - intros _. apply clean_loop_hash in Erun as (raw & Hraw & _).
    rewrite readblocks_concat in Hraw by done. by eexists.
  - by destruct (os_remove tmpname w1) as [[?|?] ?].
Qed.

(** C6 (amended). Under the default version V2 the magic length computed
    at startup is 74.  When [filter_clean] returns normally on content that
    is not a hanging placeholder and has fewer than [10^20] characters (the
    temporary name being fresh and not 40 characters long), the blob of the
    content was already in the object directory, and the clean output has
    received the debug message, if [GIT_FAT_VERBOSE] is set, followed by
    the placeholder of the digest and the number of characters, which is
    exactly 74 characters long. *)
Theorem clean_placeholder_length (self : t) (environ : gmap str str)
    (tmpname instream : str) (w w' : world) :
  (0 < BLOCK_SIZE)%nat ->
  __init__ environ = Ok self ->
  environ !! GIT_FAT_VERSION <> Some (lit "1") ->
  objdir w !! tmpname = None ->
  length tmpname <> 40%nat ->
  (length (take BLOCK_SIZE instream) <> magiclen self
   \/ decode_clean (take BLOCK_SIZE instream) = Ok None) ->
  (Z.of_nat (length instream) < 10 ^ 20)%Z ->
  filter_clean BLOCK_SIZE objdir_path self environ tmpname instream w
  = (Ok tt, w') ->
  magiclen self = 74%nat /\
  exists (raw : list byte) (p : str),
    utf8_encode instream = Some raw
    /\ is_Some (objdir w !! Sha1.hexdigest raw)
    /\ encode environ (Sha1.hexdigest raw)
         (Some (Z.of_nat (length instream))) = Ok p
    /\ length p = 74%nat
    /\ out w'
       = out w
         ++ debug_text environ
              (cache_exists_msg objdir_path (Sha1.hexdigest raw))
         ++ p.
Proof.
  intros HB Hinit Hv2 Htmp Hlen40 Hnh Hlen Hrun.
  rewrite init_value, decide_False in Hinit by done. injection Hinit as <-.
  split; [reflexivity|].
  destruct (filter_clean_ok_encodable _ _ _ _ _ _ HB Hrun) as [raw Hraw].
  assert (Hne : tmpname <> Sha1.hexdigest raw).
  { intros ->. by rewrite hexdigest_length in Hlen40. }
  destruct (encode_some_ok environ (Sha1.hexdigest raw)
              (Z.of_nat (length instream))) as [p Hp].
  exists raw, p. split; [done|].
  destruct (objdir w !! Sha1.hexdigest raw) as [f|] eqn:Ed.
  - rewrite (filter_clean_stored _ _ _ _ _ _ raw f p) in Hrun by done.
    injection Hrun as <-. cbn [out].
    split; [by eexists|]. split; [done|]. split; [|done].
    rewrite encode_is_v2 in Hp by done.
    eapply encode_v2_length; [apply hexdigest_length| |exact Hp]. lia.
  - by rewrite (filter_clean_new _ _ _ _ _ _ raw) in Hrun.
Qed.

End Claims.

(** C6, as stated, fails: neither the magic length nor the placeholder
    written for ["hello world"], whose blob is stored, has 67 characters;
    both have 74.  (With an empty object directory nothing is written at
    all.) *)
Lemma clean_placeholder_not_67 :
  _calculate_magic_len ∅ = Ok 74%nat /\
  _calculate_magic_len ∅ <> Ok 67%nat /\
  (let w' := (cmd_filter_clean 4096 example_objdir_path example_self ∅
                example_tmpname (lit "hello world")
                example_stored_world).2 in
   length (out w') = 74%nat /\ length (out w') <> 67%nat) /\
  (let w' := (cmd_filter_clean 4096 example_objdir_path example_self ∅
                example_tmpname (lit "hello world") example_world).2 in
   length (out w') = 0%nat).
Proof.
  split; [vm_compute; reflexivity|]. split; [vm_compute; discriminate|].
  split; [split; [vm_compute; reflexivity | vm_compute; discriminate]|].
  vm_compute; reflexivity.
Qed.

Lemma clean_placeholder_length_witness :
  magiclen example_self = 74%nat /\
  exists (raw : list byte) (p : str),
    utf8_encode (lit "hello world") = Some raw
    /\ is_Some (objdir example_stored_world !! Sha1.hexdigest raw)
    /\ encode ∅ (Sha1.hexdigest raw)
         (Some (Z.of_nat (length (lit "hello world")))) = Ok p
    /\ length p = 74%nat
    /\ example_placeholder
       = out example_stored_world
         ++ debug_text ∅
              (cache_exists_msg example_objdir_path (Sha1.hexdigest raw))
         ++ p.
Proof.
  refine (clean_placeholder_length 4096 example_objdir_path example_self ∅
            example_tmpname (lit "hello world") example_stored_world
            (World (objdir example_stored_world) 18 example_placeholder)
            _ _ _ _ _ _ _ _).
  - lia.
  - vm_compute. reflexivity.
  - vm_compute. discriminate.
  - reflexivity.
  - vm_compute. discriminate.
  - left. vm_compute. discriminate.
  - vm_compute. reflexivity.
  - vm_compute. reflexivity.
Defined.

(** C1. On the one-character text "é" (two bytes in UTF-8) and an empty
    object directory, [filter_clean] ends with [NameError] at the bare
    [umask]: no blob is stored and no placeholder is written.  When the
    two bytes are already stored under their SHA-1, it writes a placeholder
    whose size field is 1, the number of characters, not 2, the number of
    bytes. *)
Theorem filter_clean_counts_characters :
  let content : list byte := [xc3; xa9] in
  let digest := Sha1.hexdigest content in
  let stored := World {[ digest := File 292 content ]} 18 [] in
  utf8_encode [233] = Some content /\
  cmd_filter_clean 4096 example_objdir_path example_self ∅ example_tmpname
    [233] example_world
  = (Raise (NameError (lit "umask")), example_world) /\
  exists p : str,
    cmd_filter_clean 4096 example_objdir_path example_self ∅ example_tmpname
      [233] stored
    = (Ok tt, World (objdir stored) 18 p)
    /\ Ok p = encode ∅ digest (Some 1%Z)
    /\ Ok p <> encode ∅ digest (Some (Z.of_nat (length content))).
Proof.
  split; [vm_compute; reflexivity|].
  split; [vm_compute; reflexivity|].
  eexists. split; [vm_compute; reflexivity|].
  split; [vm_compute; reflexivity | vm_compute; discriminate].
Qed.

Lemma smudge_passthrough_raises_witness :
  startswith cookie (take (magiclen example_self) (lit "hello world")) = false /\
  cmd_filter_smudge 4096 (fun _ => 0%nat) example_self ∅ (lit "hello world")
    example_world
  = (Raise (NameError (lit "itertools")), example_world).
Proof.
  assert (Hc : startswith cookie
                 (take (magiclen example_self) (lit "hello world")) = false)
    by reflexivity.
  split; [exact Hc|].
  exact (smudge_passthrough_raises 4096 (fun _ => 0%nat) example_self ∅
           (lit "hello world") example_world Hc).
Defined.

Lemma smudge_missing_raises_witness :
  let d := lit "2aae6c35c94fcfb415dbe95f408b9ce91ee846ed" in
  let placeholder := cookie ++ d ++ [LF] in
  cmd_filter_smudge 4096 (fun _ => 0%nat) example_self ∅ placeholder
    example_world
  = (Raise (NameError (lit "logger")), example_world)
  /\ ((None : option Z) = None ->
      (∅ : gmap str str) !! GIT_FAT_VERSION <> Some (lit "1") ->
      encode ∅ d None = Raise TypeError).
Proof.
  refine (smudge_missing_raises 4096 (fun _ => 0%nat) example_self ∅
            (cookie ++ lit "2aae6c35c94fcfb415dbe95f408b9ce91ee846ed" ++ [LF])
            (lit "2aae6c35c94fcfb415dbe95f408b9ce91ee846ed") None
            example_world _ _).
  - vm_compute. reflexivity.
  - reflexivity.
Defined.


(** C9. A candidate blob of magic length that starts with the cookie and
    has no token after it makes the scan raise [IndexError]; one whose
    second token is not a number makes it raise [ValueError].  The records
    that follow are not read: the placeholder after the malformed blob is
    never added to the referenced set. *)
Theorem scan_malformed_candidate_raises :
  let blank := cookie ++ replicate 62 SPACE in
  let words := cookie ++ lit "abc xyz" ++ replicate 55 SPACE in
  let bad1 := batch_record "aaaaaaaaaaaaaaaaaaaaaaaaaaaaaaaaaaaaaaaa" blank in
  let bad2 := batch_record "bbbbbbbbbbbbbbbbbbbbbbbbbbbbbbbbbbbbbbbb" words in
  let good := batch_record "cccccccccccccccccccccccccccccccccccccccc"
                example_placeholder in
  length blank = 74%nat /\ length words = 74%nat /\
  referenced_objects good
  = Ok {[ lit "2aae6c35c94fcfb415dbe95f408b9ce91ee846ed" ]} /\
  referenced_objects bad1 = Raise IndexError /\
  referenced_objects bad2 = Raise ValueError /\
  referenced_objects (bad1 ++ good) = Raise IndexError.
Proof.
  repeat split; vm_compute; reflexivity.
Qed.

(* ===================================================================== *)
(** ** Garbage collection *)
(* ===================================================================== *)

(** C8. [cmd_gc] removes nothing, whatever the object directory and the
    history: when the scan raises, [cmd_gc] raises with it, and when the
    scan returns, the first message to [logger], which is bound nowhere,
    raises [NameError] before the loop over the garbage starts.  The state
    is left exactly as it was, unreferenced files included. *)
Theorem gc_removes_nothing (p3_stdout : list byte) (w : world) :
  exists e : exn,
    cmd_gc p3_stdout w = (Raise e, w)
    /\ (forall referenced : gset str,
          referenced_objects p3_stdout = Ok referenced ->
          e = NameError (lit "logger")).
Proof.
  unfold cmd_gc. destruct (referenced_objects p3_stdout) as [referenced|e].
  - exists (NameError (lit "logger")). split; [|done].
    by rewrite M_bind_unfold.
  - exists e. split; [done|]. by intros ?.
Qed.

(** An instance: the history references nothing, the object directory
    holds one file, and [cmd_gc] leaves it there. *)
Example gc_keeps_unreferenced_file :
  referenced_objects [] = Ok ∅ /\
  lit "2aae6c35c94fcfb415dbe95f408b9ce91ee846ed"
    ∈ catalog_objects example_stored_world /\
  cmd_gc [] example_stored_world
  = (Raise (NameError (lit "logger")), example_stored_world).
Proof.
  assert (H : referenced_objects [] = Ok ∅) by reflexivity.
  split; [exact H|]. split.
  - apply elem_of_dom. eexists. apply lookup_singleton_eq.
  - unfold cmd_gc. rewrite H. by rewrite M_bind_unfold.
Qed.

(** The hex digest has the form of a digest. *)
Lemma hexchar_ishex (n : N) : n < 16 -> ishex (Sha1.hexchar n) = true.
Proof.
  intros Hn. unfold Sha1.hexchar, ishex.
  destruct (N.ltb_spec n 10).
  - rewrite (proj2 (N.leb_le 48 (48 + n))), (proj2 (N.leb_le (48 + n) 57)) by lia.
    done.
  - rewrite (proj2 (N.leb_le 97 (87 + n))), (proj2 (N.leb_le (87 + n) 102)) by lia.
    by rewrite orb_true_r.
Qed.

Lemma hex8_ishex (x : N) : Forall (fun c => ishex c = true) (Sha1.hex8 x).
Proof.
  unfold Sha1.hex8. apply Forall_forall. intros c Hc.
  apply list_elem_of_fmap in Hc as (i & -> & _).
  apply hexchar_ishex. apply N.mod_lt. done.
Qed.

(** [hexdigest] always returns 40 lowercase hexadecimal characters. *)
Lemma hexdigest_is_digest (msg : list byte) : is_digest (Sha1.hexdigest msg).
Proof.
  split; [apply hexdigest_length|].
  unfold Sha1.hexdigest.
  destruct (Sha1.blocks _ _ _) as [[[[h0 h1] h2] h3] h4].
  repeat (apply Forall_app; split); apply hex8_ishex.
Qed.

(* ===================================================================== *)
(** ** Smudge: what it reads and what it leaves alone *)
(* ===================================================================== *)

Section SmudgeExtras.
Variable BLOCK_SIZE : nat.
Variable delivered : list byte -> nat.

(** [cat] writes what the file delivers and ends as the reading ends. *)
Lemma cat_spec (f : text_file) (w : world) :
  (0 < BLOCK_SIZE)%nat ->
  cat BLOCK_SIZE f w
  = (match tf_error f with Some e => Raise e | None => Ok tt end,
     World (objdir w) (umask_bits w) (out w ++ tf_text f)).
Proof.
  intros HB. unfold cat. rewrite M_bind_unfold, cat_iter_spec.
  rewrite readblocks_concat by done. unfold reading_ends.
  by destruct (tf_error f).
Qed.

Lemma cat_frame (f : text_file) (w : world) :
  let w' := (cat BLOCK_SIZE f w).2 in
  objdir w' = objdir w /\ umask_bits w' = umask_bits w.
Proof.
  unfold cat. rewrite M_bind_unfold, cat_iter_spec. unfold reading_ends.
  by destruct (tf_error f).
Qed.

(** X1. Smudge reads the object directory and never writes to it: whatever
    the input and whatever the outcome, the directory and the umask are
    afterwards what they were. *)
Theorem smudge_keeps_store (self : t) (environ : gmap str str) (stdin : str)
    (w : world) :
  let w' := (cmd_filter_smudge BLOCK_SIZE delivered self environ stdin w).2 in
  objdir w' = objdir w /\ umask_bits w' = umask_bits w.
Proof.
  unfold cmd_filter_smudge, setup. rewrite M_bind_ret, M_bind_unfold.
  unfold lift. destruct (decode_stream self stdin) as [[[d| |blocks] b]|e];
    cbn [snd]; [| done | done | done].
  unfold try_except. rewrite M_bind_unfold. unfold open_text.
  destruct (objdir w !! d) as [f|]; [|done].
  set (tf := match utf8_decode (f_data f) with
             | Some s => TextFile (universal_newlines s) None
             | None => TextFile
                         (take (delivered (f_data f))
                            (universal_newlines (utf8_valid_prefix (f_data f))))
                         (Some UnicodeDecodeError)
             end).
  assert (Hopen : (match utf8_decode (f_data f) with
                   | Some s => (Ok (TextFile (universal_newlines s) None), w)
                   | None =>
                       (Ok (TextFile
                              (take (delivered (f_data f))
                                 (universal_newlines
                                    (utf8_valid_prefix (f_data f))))
                              (Some UnicodeDecodeError)), w)
                   end) = (Ok tf, w))
    by (subst tf; by destruct (utf8_decode (f_data f))).
  rewrite Hopen. rewrite M_bind_unfold.
  pose proof (cat_frame tf w) as Hcat. cbn zeta in Hcat.
  destruct (cat BLOCK_SIZE tf w) as [[[]|e] w1]; cbn [snd] in Hcat.
  - unfold unbound, lift. cbn [is_IOError]. done.
  - by destruct (is_IOError e).
Qed.

(** Smudge of a placeholder whose blob is stored and valid UTF-8: the
    text of the blob is written, then [logger] is evaluated. *)
Lemma smudge_reads_blob (self : t) (environ : gmap str str) (stdin : str)
    (d : str) (b : option Z) (f : file) (s : str) (w : world) :
  (0 < BLOCK_SIZE)%nat ->
  decode (take (magiclen self) stdin) false = Ok (Some d, b) ->
  objdir w !! d = Some f ->
  utf8_decode (f_data f) = Some s ->
  cmd_filter_smudge BLOCK_SIZE delivered self environ stdin w
  = (Raise (NameError (lit "logger")),
     World (objdir w) (umask_bits w) (out w ++ universal_newlines s)).
Proof.
  intros HB Hdec Hf Hs. unfold cmd_filter_smudge, setup, decode_stream.
  rewrite M_bind_ret, Hdec, M_bind_lift_ok.
  unfold try_except. rewrite M_bind_unfold. unfold open_text.
  rewrite Hf, Hs. rewrite M_bind_unfold, cat_spec by done.
  cbn [tf_error tf_text]. unfold unbound, lift. cbn [is_IOError]. done.
Qed.

(** X2. When the input starts with [magiclen] characters that decode to a
    digest whose blob is in the object directory and is valid UTF-8, smudge
    writes the text of the blob as text mode reads it (CR LF and CR as
    LF), and only that, to the output: whatever follows the placeholder on
    the input is neither read nor copied, and the object directory is left
    as it was.  Smudge then ends with [NameError], at the message to
    [logger] that follows the copy. *)
Theorem smudge_restores (self : t) (environ : gmap str str) (p rest : str)
    (d : str) (b : option Z) (f : file) (s : str) (w : world) :
  (0 < BLOCK_SIZE)%nat ->
  length p = magiclen self ->
  decode p false = Ok (Some d, b) ->
  objdir w !! d = Some f ->
  utf8_decode (f_data f) = Some s ->
  cmd_filter_smudge BLOCK_SIZE delivered self environ (p ++ rest) w
  = (Raise (NameError (lit "logger")),
     World (objdir w) (umask_bits w) (out w ++ universal_newlines s)).
Proof.
  intros HB Hl Hdec Hf Hs.
  apply (smudge_reads_blob _ _ _ d b f s); [done| |done|done].
  by rewrite <- Hl, take_app_length.
Qed.

End SmudgeExtras.

Lemma smudge_restores_witness :
  let d := lit "2aae6c35c94fcfb415dbe95f408b9ce91ee846ed" in
  let w := World (<[d := File 292 (bytes_of_ascii "hello world")]> ∅) 18 [] in
  cmd_filter_smudge 4096 (fun _ => 0%nat) example_self ∅
    (example_placeholder ++ lit "trailing text") w
  = (Raise (NameError (lit "logger")),
     World (objdir w) (umask_bits w)
       (out w ++ universal_newlines (lit "hello world"))).
Proof.
  refine (smudge_restores 4096 (fun _ => 0%nat) example_self ∅
            example_placeholder (lit "trailing text")
            (lit "2aae6c35c94fcfb415dbe95f408b9ce91ee846ed") (Some 11%Z)
            (File 292 (bytes_of_ascii "hello world")) (lit "hello world")
            (World (<[lit "2aae6c35c94fcfb415dbe95f408b9ce91ee846ed"
                        := File 292 (bytes_of_ascii "hello world")]> ∅) 18 [])
            _ _ _ _ _).
  - lia.
  - reflexivity.
  - vm_compute. reflexivity.
  - apply lookup_insert_eq.
  - vm_compute. reflexivity.
Defined.

(** A blob that holds CR LF comes out of smudge with LF. *)
Example smudge_translates_newlines :
  let data := [x61; x0d; x0a; x62] in
  let d := Sha1.hexdigest data in
  let w := World {[ d := File 292 data ]} 18 [] in
  (cmd_filter_smudge 4096 (fun _ => 0%nat) example_self ∅
     (cookie ++ d ++ [LF]) w).2
  = World (objdir w) 18 [97; 10; 98].
Proof. vm_compute. reflexivity. Qed.

(* ===================================================================== *)
(** ** Clean: the effect on the object directory *)
(* ===================================================================== *)

Section CleanExtras.
Variable BLOCK_SIZE : nat.
Variable objdir_path : str.

(** X3. What [filter_clean] can do to the object directory, for every input
    and every outcome, exceptions included: either the directory is
    afterwards exactly what it was, or the call succeeded and added one
    file, under a name that did not exist, which is the SHA-1 of the
    file's contents.  In particular the temporary file never stays, no
    existing file is changed or removed, and a call that raises leaves the
    directory untouched. *)
Theorem filter_clean_outcome (self : t) (environ : gmap str str)
    (tmpname instream : str) (w : world) :
  objdir w !! tmpname = None ->
  let r := (filter_clean BLOCK_SIZE objdir_path self environ tmpname
              instream w).1 in
  let w' := (filter_clean BLOCK_SIZE objdir_path self environ tmpname
               instream w).2 in
  umask_bits w' = umask_bits w
  /\ (r <> Ok tt -> objdir w' = objdir w)
  /\ (objdir w' = objdir w
      \/ (r = Ok tt /\
          exists raw,
            Sha1.hexdigest raw <> tmpname /\
            objdir w !! Sha1.hexdigest raw = None /\
            objdir w'
            = <[Sha1.hexdigest raw
                  := File (Z.land 292 (Z.lnot (umask_bits w))) raw]> (objdir w))).
Proof.
  intros Htmp r w'.
  destruct (filter_clean_frame BLOCK_SIZE objdir_path self environ tmpname
              instream w Htmp) as [Hm Hu].
  split; [exact Hu|]. split; [by intros _|]. by left.
Qed.

(** X4. [filter_clean] keeps the invariant of the object directory: if
    every file is named by the SHA-1 of its contents before the call, the
    same holds after it, whatever the input and the outcome; no file that
    was there is changed or removed, and the temporary file is gone. *)
Theorem filter_clean_keeps_invariant (self : t) (environ : gmap str str)
    (tmpname instream : str) (w : world) :
  objdir w !! tmpname = None ->
  let w' := (filter_clean BLOCK_SIZE objdir_path self environ tmpname
               instream w).2 in
  objdir w' !! tmpname = None
  /\ (forall name f, objdir w !! name = Some f -> objdir w' !! name = Some f)
  /\ (store_ok (objdir w) -> store_ok (objdir w')).
Proof.
  intros Htmp.
  destruct (filter_clean_frame BLOCK_SIZE objdir_path self environ tmpname
              instream w Htmp) as [Hm _].
  cbn zeta. by rewrite Hm.
Qed.

(** X6. Cleaning the same text a second time does what the first call
    did: the same outcome, the same text written, and the object directory
    left as it was by both calls.  The outcome is a normal return, with the
    placeholder written, exactly when the blob of the text is already in
    the object directory; otherwise both calls end with [NameError] at the
    bare [umask], which is bound nowhere, and write nothing: content that
    is not in the object directory is never admitted. *)
Theorem filter_clean_twice (self : t) (environ : gmap str str)
    (tmp1 tmp2 instream : str) (raw : list byte) (w : world) :
  (0 < BLOCK_SIZE)%nat ->
  objdir w !! tmp1 = None -> objdir w !! tmp2 = None ->
  tmp1 <> Sha1.hexdigest raw -> tmp2 <> Sha1.hexdigest raw ->
  utf8_encode instream = Some raw ->
  (length (take BLOCK_SIZE instream) <> magiclen self
   \/ decode_clean (take BLOCK_SIZE instream) = Ok None) ->
  exists (r : result unit) (x : str) (w1 : world),
    filter_clean BLOCK_SIZE objdir_path self environ tmp1 instream w = (r, w1)
    /\ objdir w1 = objdir w
    /\ out w1 = out w ++ x
    /\ filter_clean BLOCK_SIZE objdir_path self environ tmp2 instream w1
       = (r, World (objdir w1) (umask_bits w1) (out w1 ++ x))
    /\ (r = Ok tt <-> is_Some (objdir w !! Sha1.hexdigest raw))
    /\ (r = Ok tt \/ (r = Raise (NameError (lit "umask")) /\ x = [])).
Proof.
  intros HB Ht1 Ht2 Hn1 Hn2 Hraw Hnh.
  destruct (objdir w !! Sha1.hexdigest raw) as [f|] eqn:Ed.
  - destruct (encode_some_ok environ (Sha1.hexdigest raw)
                (Z.of_nat (length instream))) as [p Hp].
    exists (Ok tt).
    rewrite (filter_clean_stored _ _ _ _ _ _ raw f p) by done.
    eexists _, _. split; [reflexivity|]. split; [reflexivity|].
    split; [reflexivity|]. split; [|split; [|by left]].
    + by rewrite (filter_clean_stored _ _ _ _ _ _ raw f p).
    + split; [by eexists | done].
  - exists (Raise (NameError (lit "umask"))), [], w.
    rewrite !(filter_clean_new _ _ _ _ _ _ raw) by done.
    split; [done|]. split; [done|]. split; [by rewrite app_nil_r|].
    split; [destruct w; cbn; by rewrite app_nil_r|].
    split; [|by right]. split; [done | by intros [? ?]].
Qed.

(** Content that is not in the object directory, at the level of the
    command: for text that can be encoded and is not a hanging
    placeholder, [cmd_filter_clean] ends with [NameError] at the bare
    [umask]; the temporary file is removed, the object directory is what it
    was and nothing has been written to the output. *)
Lemma clean_new_content_raises (self : t) (environ : gmap str str)
    (tmpname stdin : str) (raw : list byte) (w : world) :
  (0 < BLOCK_SIZE)%nat ->
  objdir w !! tmpname = None ->
  length tmpname <> 40%nat ->
  utf8_encode stdin = Some raw ->
  (length (take BLOCK_SIZE stdin) <> magiclen self
   \/ decode_clean (take BLOCK_SIZE stdin) = Ok None) ->
  objdir w !! Sha1.hexdigest raw = None ->
  cmd_filter_clean BLOCK_SIZE objdir_path self environ tmpname stdin w
  = (Raise (NameError (lit "umask")), w).
Proof.
  intros HB Htmp Hlen Hraw Hnh Hnew.
  unfold cmd_filter_clean, setup. rewrite M_bind_ret.
  apply (filter_clean_new _ _ _ _ _ _ raw); try done.
  intros ->. by rewrite hexdigest_length in Hlen.
Qed.

End CleanExtras.

Lemma filter_clean_outcome_witness :
  let r := (filter_clean 4096 example_objdir_path example_self ∅
              example_tmpname (lit "hello world") example_world).1 in
  let w' := (filter_clean 4096 example_objdir_path example_self ∅
               example_tmpname (lit "hello world") example_world).2 in
  objdir example_world !! example_tmpname = None /\
  umask_bits w' = umask_bits example_world
  /\ (r <> Ok tt -> objdir w' = objdir example_world)
  /\ (objdir w' = objdir example_world
      \/ (r = Ok tt /\
          exists raw,
            Sha1.hexdigest raw <> example_tmpname /\
            objdir example_world !! Sha1.hexdigest raw = None /\
            objdir w'
            = <[Sha1.hexdigest raw
                  := File (Z.land 292 (Z.lnot (umask_bits example_world))) raw]>
                (objdir example_world))).
Proof.
  assert (H : objdir example_world !! example_tmpname = None) by reflexivity.
  split; [exact H|].
  exact (filter_clean_outcome 4096 example_objdir_path example_self ∅
           example_tmpname (lit "hello world") example_world H).
Defined.

Lemma filter_clean_keeps_invariant_witness :
  let w' := (filter_clean 4096 example_objdir_path example_self ∅
               example_tmpname (lit "hello world") example_stored_world).2 in
  objdir example_stored_world !! example_tmpname = None /\
  objdir w' !! example_tmpname = None
  /\ (forall name f,
        objdir example_stored_world !! name = Some f ->
        objdir w' !! name = Some f)
  /\ (store_ok (objdir example_stored_world) -> store_ok (objdir w')).
Proof.
  assert (H : objdir example_stored_world !! example_tmpname = None)
    by reflexivity.
  split; [exact H|].
  exact (filter_clean_keeps_invariant 4096 example_objdir_path example_self ∅
           example_tmpname (lit "hello world") example_stored_world H).
Defined.

Lemma filter_clean_twice_witness :
  exists (r : result unit) (x : str) (w1 : world),
    filter_clean 4096 example_objdir_path example_self ∅ example_tmpname
      (lit "hello world") example_stored_world = (r, w1)
    /\ objdir w1 = objdir example_stored_world
    /\ out w1 = out example_stored_world ++ x
    /\ filter_clean 4096 example_objdir_path example_self ∅
         (lit "tmpq7w1e_9z") (lit "hello world") w1
       = (r, World (objdir w1) (umask_bits w1) (out w1 ++ x))
    /\ (r = Ok tt
        <-> is_Some (objdir example_stored_world
                      !! Sha1.hexdigest (bytes_of_ascii "hello world")))
    /\ (r = Ok tt \/ (r = Raise (NameError (lit "umask")) /\ x = [])).
Proof.
  refine (filter_clean_twice 4096 example_objdir_path example_self ∅
            example_tmpname (lit "tmpq7w1e_9z") (lit "hello world")
            (bytes_of_ascii "hello world") example_stored_world
            _ _ _ _ _ _ _).
  - lia.
  - reflexivity.
  - reflexivity.
  - vm_compute. discriminate.
  - vm_compute. discriminate.
  - vm_compute. reflexivity.
  - left. vm_compute. discriminate.
Defined.

Lemma clean_new_content_raises_instance :
  cmd_filter_clean 4096 example_objdir_path example_self ∅ example_tmpname
    (lit "hello world") example_world
  = (Raise (NameError (lit "umask")), example_world).
Proof.
  refine (clean_new_content_raises 4096 example_objdir_path example_self ∅
            example_tmpname (lit "hello world")
            (bytes_of_ascii "hello world") example_world _ _ _ _ _ _).
  - lia.
  - reflexivity.
  - vm_compute. discriminate.
  - vm_compute. reflexivity.
  - left. vm_compute. discriminate.
  - reflexivity.
Defined.

(* ===================================================================== *)
(** ** Clean and smudge together *)
(* ===================================================================== *)

Section RoundTrip.
Variable BLOCK_SIZE : nat.
Variable objdir_path : str.
Variable delivered : list byte -> nat.

(** X5. Clean and smudge on content whose blob is in the object directory
    (the one case in which clean writes a placeholder): [filter_clean] of a
    text without CR leaves the directory as it was and writes the debug
    message, if there is one, and the placeholder; [cmd_filter_smudge] on
    that placeholder writes the text back, character for character, before
    it ends with [NameError] at [logger].  (The text is under [10^20]
    characters unless V1 is written.) *)
Theorem smudge_clean_roundtrip (self : t) (environ : gmap str str)
    (tmpname instream : str) (raw : list byte) (f : file) (w : world) :
  (0 < BLOCK_SIZE)%nat ->
  __init__ environ = Ok self ->
  objdir w !! tmpname = None ->
  tmpname <> Sha1.hexdigest raw ->
  utf8_encode instream = Some raw ->
  Forall (fun c => c <> CR) instream ->
  (length (take BLOCK_SIZE instream) <> magiclen self
   \/ decode_clean (take BLOCK_SIZE instream) = Ok None) ->
  (environ !! GIT_FAT_VERSION = Some (lit "1")
   \/ (Z.of_nat (length instream) < 10 ^ 20)%Z) ->
  objdir w !! Sha1.hexdigest raw = Some f ->
  f_data f = raw ->
  exists (p : str) (w1 : world),
    filter_clean BLOCK_SIZE objdir_path self environ tmpname instream w
    = (Ok tt, w1)
    /\ objdir w1 = objdir w
    /\ out w1
       = out w
         ++ debug_text environ
              (cache_exists_msg objdir_path (Sha1.hexdigest raw))
         ++ p
    /\ cmd_filter_smudge BLOCK_SIZE delivered self environ p w1
       = (Raise (NameError (lit "logger")),
          World (objdir w1) (umask_bits w1) (out w1 ++ instream)).
Proof.
  intros HB Hinit Htmp Hne Hraw Hcr Hnh Hlen Hf Hdata.
  pose proof (hexdigest_is_digest raw) as Hd.
  pose proof (digest_nospace _ Hd) as Hns.
  pose proof (digest_nonempty _ Hd) as Hnn.
  destruct Hd as [Hdl _].
  set (d := Sha1.hexdigest raw) in *.
  set (n := Z.of_nat (length instream)) in *.
  assert (Hn0 : (0 <= n)%Z) by (subst n; lia).
  destruct (encode_some_ok environ d n) as [p Hp].
  rewrite (filter_clean_stored _ _ _ _ _ _ raw f p) by done.
  eexists p, _. split; [reflexivity|]. split; [reflexivity|].
  split; [reflexivity|]. cbn [objdir umask_bits out].
  rewrite init_value in Hinit. unfold encode in Hp.
  assert (Hdec : decode (take (magiclen self) p) false
                 = Ok (Some d,
                       if decide (environ !! GIT_FAT_VERSION = Some (lit "1"))
                       then None else Some n)).
  { destruct (decide (environ !! GIT_FAT_VERSION = Some (lit "1"))) as [Hv|Hv];
      injection Hinit as <-; cbn [magiclen].
    - pose proof (encode_v1_length d _ p Hdl Hp) as Hl.
      rewrite take_ge by lia.
      assert (p = cookie ++ d ++ [LF]) as -> by (by injection Hp).
      by apply decode_v1.
    - destruct Hlen as [Hlen|Hlen]; [done|].
      pose proof (encode_v2_length d n p Hdl (conj Hn0 Hlen) Hp) as Hl.
      rewrite take_ge by lia.
      assert (p = cookie ++ d ++ [SPACE] ++ rjust 20 (str_of_int n) ++ [LF])
        as -> by (by injection Hp).
      by apply decode_v2. }
  rewrite (smudge_reads_blob BLOCK_SIZE delivered self environ p d _ f
             instream _ HB Hdec).
  - cbn [objdir umask_bits out]. by rewrite universal_newlines_no_CR.
  - exact Hf.
  - rewrite Hdata. by apply utf8_decode_encode.
Qed.

End RoundTrip.

Lemma smudge_clean_roundtrip_witness :
  exists (p : str) (w1 : world),
    filter_clean 4096 example_objdir_path example_self ∅ example_tmpname
      (lit "hello world") example_stored_world
    = (Ok tt, w1)
    /\ objdir w1 = objdir example_stored_world
    /\ out w1
       = out example_stored_world
         ++ debug_text ∅
              (cache_exists_msg example_objdir_path
                 (Sha1.hexdigest (bytes_of_ascii "hello world")))
         ++ p
    /\ cmd_filter_smudge 4096 (fun _ => 0%nat) example_self ∅ p w1
       = (Raise (NameError (lit "logger")),
          World (objdir w1) (umask_bits w1) (out w1 ++ lit "hello world")).
Proof.
  refine (smudge_clean_roundtrip 4096 example_objdir_path (fun _ => 0%nat)
            example_self ∅ example_tmpname
            (lit "hello world") (bytes_of_ascii "hello world")
            (File 292 (bytes_of_ascii "hello world")) example_stored_world
            _ _ _ _ _ _ _ _ _ _).
  - lia.
  - vm_compute. reflexivity.
  - reflexivity.
  - vm_compute. discriminate.
  - vm_compute. reflexivity.
  - repeat constructor; done.
  - left. vm_compute. discriminate.
  - right. vm_compute. reflexivity.
  - vm_compute. reflexivity.
  - reflexivity.
Defined.

(* ===================================================================== *)
(** ** cmd_verify *)
(* ===================================================================== *)

Section VerifyLemmas.
Variable BLOCK_SIZE : nat.
Variable delivered : list byte -> nat.

(** One object whose bytes are valid UTF-8 is hashed over the bytes of the
    text that text mode delivers. *)
Lemma verify_object_valid (obj : str) (acc : list (str * str)) (f : file)
    (s : str) (w : world) :
  (0 < BLOCK_SIZE)%nat ->
  objdir w !! obj = Some f -> utf8_decode (f_data f) = Some s ->
  exists hb,
    text_mode_bytes (f_data f) = Some hb
    /\ verify_object BLOCK_SIZE delivered obj acc w
       = (Ok (if decide (obj = Sha1.hexdigest hb) then acc
              else acc ++ [(obj, Sha1.hexdigest hb)]), w).
Proof.
  intros HB Hf Hs.
  destruct (proj2 (utf8_encode_is_Some (universal_newlines s))) as [hb Hhb].
  { apply universal_newlines_encodable. by eapply utf8_decode_encodable. }
  exists hb. split.
  - unfold text_mode_bytes. rewrite Hs. exact Hhb.
  - unfold verify_object. rewrite M_bind_unfold. unfold open_text.
    rewrite Hf, Hs. cbn [tf_text].
    rewrite (hash_blocks_spec _ _ hb)
      by (by rewrite readblocks_concat).
    rewrite M_bind_lift_ok. unfold reading_ends. cbn [tf_error].
    by rewrite M_bind_ret.
Qed.

(** One object whose bytes are not valid UTF-8: what is delivered before
    the invalid bytes is hashed, then the reading raises. *)
Lemma verify_object_invalid (obj : str) (acc : list (str * str)) (f : file)
    (w : world) :
  (0 < BLOCK_SIZE)%nat ->
  objdir w !! obj = Some f -> utf8_decode (f_data f) = None ->
  verify_object BLOCK_SIZE delivered obj acc w = (Raise UnicodeDecodeError, w).
Proof.
  intros HB Hf Hs.
  destruct (proj2 (utf8_encode_is_Some
                     (take (delivered (f_data f))
                        (universal_newlines (utf8_valid_prefix (f_data f))))))
    as [hb Hhb].
  { apply Forall_take, universal_newlines_encodable,
      utf8_valid_prefix_encodable. }
  unfold verify_object. rewrite M_bind_unfold. unfold open_text.
  rewrite Hf, Hs. cbn [tf_text].
  rewrite (hash_blocks_spec _ _ hb) by (by rewrite readblocks_concat).
  rewrite M_bind_lift_ok. unfold reading_ends. cbn [tf_error].
  by rewrite M_bind_lift_raise.
Qed.

Lemma verify_loop_valid (l : list str) (acc : list (str * str)) (w : world) :
  (0 < BLOCK_SIZE)%nat ->
  (forall x, x ∈ l ->
     exists f s, objdir w !! x = Some f /\ utf8_decode (f_data f) = Some s) ->
  exists c,
    for_each (verify_object BLOCK_SIZE delivered) l acc w = (Ok (acc ++ c), w)
    /\ (c = [] <->
        forall x f, x ∈ l -> objdir w !! x = Some f ->
                    exists hb, text_mode_bytes (f_data f) = Some hb
                               /\ x = Sha1.hexdigest hb).
Proof.
  intros HB. revert acc. induction l as [|x l IH]; intros acc Hall.
  - exists []. rewrite app_nil_r. split; [done|]. split; [|done].
    intros _ x f Hx. by apply elem_of_nil in Hx.
  - destruct (Hall x) as (f & s & Hf & Hs); [by left|].
    cbn [for_each]. rewrite M_bind_unfold.
    destruct (verify_object_valid x acc f s w HB Hf Hs) as (hb & Hhb & ->).
    destruct (decide (x = Sha1.hexdigest hb)) as [Hx|Hx].
    + destruct (IH acc) as (c & Hrun & Hc).
      { intros y Hy. apply Hall. by right. }
      exists c. split; [done|]. rewrite Hc. split.
      * intros H y g [->|Hy]%elem_of_cons Hg; [|by eapply H].
        exists hb. split; [congruence|done].
      * intros H y g Hy. apply H. by right.
    + destruct (IH (acc ++ [(x, Sha1.hexdigest hb)])) as (c & Hrun & _).
      { intros y Hy. apply Hall. by right. }
      exists ((x, Sha1.hexdigest hb) :: c).
      split; [by rewrite Hrun, <- app_assoc|]. split; [done|].
      intros H. destruct Hx.
      destruct (H x f) as (hb' & Hhb' & ->); [by left|done|]. congruence.
Qed.

Lemma verify_loop_invalid (l : list str) (acc : list (str * str)) (w : world) :
  (0 < BLOCK_SIZE)%nat ->
  (forall x, x ∈ l -> is_Some (objdir w !! x)) ->
  (exists x f, x ∈ l /\ objdir w !! x = Some f /\ utf8_decode (f_data f) = None) ->
  for_each (verify_object BLOCK_SIZE delivered) l acc w
  = (Raise UnicodeDecodeError, w).
Proof.
  intros HB. revert acc.
  induction l as [|x l IH]; intros acc Hall (y & g & Hy & Hg & Hbad).
  - by apply elem_of_nil in Hy.
  - cbn [for_each]. rewrite M_bind_unfold.
    destruct (Hall x) as [f Hf]; [by left|].
    destruct (utf8_decode (f_data f)) as [s|] eqn:Es.
    + destruct (verify_object_valid x acc f s w HB Hf Es) as (hb & _ & ->).
      apply IH; [intros z Hz; apply Hall; by right|].
      apply elem_of_cons in Hy as [->|Hy]; [congruence|by exists y, g].
    + by rewrite (verify_object_invalid _ _ f).
Qed.

(** X9. When every stored file is valid UTF-8, [cmd_verify] changes
    nothing; it returns normally exactly when every file is named by the
    SHA-1 of the text that text mode delivers for it (the bytes of the file
    with CR LF and CR read as LF), and otherwise ends with [NameError] at
    the first message to [logger]: [sys.exit(1)] is never reached. *)
Theorem verify_detects_corruption (w : world) :
  (0 < BLOCK_SIZE)%nat ->
  (forall name f, objdir w !! name = Some f ->
                  exists s, utf8_decode (f_data f) = Some s) ->
  exists r,
    cmd_verify BLOCK_SIZE delivered w = (r, w)
    /\ (r = Ok tt \/ r = Raise (NameError (lit "logger")))
    /\ (r = Ok tt <-> store_text_ok (objdir w)).
Proof.
  intros HB Hvalid. unfold cmd_verify, catalog_objects. rewrite M_bind_unfold.
  destruct (verify_loop_valid (elements (dom (objdir w))) [] w HB)
    as (c & -> & Hc).
  { intros x Hx. apply elem_of_elements, elem_of_dom in Hx as [f Hf].
    destruct (Hvalid x f Hf) as [s Hs]. by exists f, s. }
  cbn [app]. unfold store_text_ok. destruct c as [|bad c].
  - exists (Ok tt). split; [done|]. split; [by left|]. split; [|done].
    intros _ name f Hf. apply (proj1 Hc eq_refl); [|done].
    apply elem_of_elements, elem_of_dom. by eexists.
  - exists (Raise (NameError (lit "logger"))). split; [done|].
    split; [by right|]. split; [done|]. intros Hok. exfalso.
    assert (bad :: c = []); [|done]. apply Hc. intros x f _ Hf. by apply Hok.
Qed.

(** X10. A stored file that is not valid UTF-8 makes [cmd_verify] raise
    [UnicodeDecodeError], whether or not the file is intact: the objects
    are opened in text mode. *)
Theorem verify_raises_on_binary (w : world) (name : str) (f : file) :
  (0 < BLOCK_SIZE)%nat ->
  objdir w !! name = Some f -> utf8_decode (f_data f) = None ->
  cmd_verify BLOCK_SIZE delivered w = (Raise UnicodeDecodeError, w).
Proof.
  intros HB Hf Hbad. unfold cmd_verify, catalog_objects. rewrite M_bind_unfold.
  rewrite verify_loop_invalid; [done | done | |].
  - intros x Hx. by apply elem_of_elements, elem_of_dom in Hx.
  - exists name, f. split; [|done]. apply elem_of_elements, elem_of_dom. by eexists.
Qed.

End VerifyLemmas.

(** For files without the byte CR, text mode delivers the bytes of the
    file, and the two invariants of the object directory agree. *)
Lemma text_mode_bytes_no_CR (data : list byte) (s : str) :
  utf8_decode data = Some s -> Forall (fun c => c <> CR) s ->
  text_mode_bytes data = Some data.
Proof.
  intros Hs Hcr. unfold text_mode_bytes. rewrite Hs. cbn.
  rewrite universal_newlines_no_CR by done. by apply utf8_encode_decode.
Qed.

Lemma store_text_ok_no_CR (m : gmap str file) :
  (forall name f, m !! name = Some f ->
     exists s, utf8_decode (f_data f) = Some s /\ Forall (fun c => c <> CR) s) ->
  store_text_ok m <-> store_ok m.
Proof.
  intros Hm. unfold store_text_ok, store_ok. split; intros H name f Hf.
  - destruct (Hm name f Hf) as (s & Hs & Hcr).
    destruct (H name f Hf) as (hb & Hhb & ->).
    rewrite (text_mode_bytes_no_CR _ s) in Hhb by done. congruence.
  - destruct (Hm name f Hf) as (s & Hs & Hcr). exists (f_data f).
    split; [by eapply text_mode_bytes_no_CR|by eapply H].
Qed.

(** An intact file that holds CR LF is hashed without the CR, and so
    reported as corrupted. *)
Example verify_flags_intact_crlf :
  let data := [x61; x0d; x0a; x62] in
  let w := World {[ Sha1.hexdigest data := File 292 data ]} 18 [] in
  cmd_verify 4096 (fun _ => 0%nat) w = (Raise (NameError (lit "logger")), w).
Proof. vm_compute. reflexivity. Qed.

Lemma verify_detects_corruption_witness :
  let kept := lit "2aae6c35c94fcfb415dbe95f408b9ce91ee846ed" in
  let empty := lit "da39a3ee5e6b4b0d3255bfef95601890afd80709" in
  let w := World (<[kept := File 292 (bytes_of_ascii "hello world!")]>
                    (<[empty := File 292 []]> ∅)) 18 [] in
  exists r,
    cmd_verify 4096 (fun _ => 0%nat) w = (r, w)
    /\ (r = Ok tt \/ r = Raise (NameError (lit "logger")))
    /\ (r = Ok tt <-> store_text_ok (objdir w)).
Proof.
  refine (verify_detects_corruption 4096 (fun _ => 0%nat)
            (World (<[lit "2aae6c35c94fcfb415dbe95f408b9ce91ee846ed"
                        := File 292 (bytes_of_ascii "hello world!")]>
                      (<[lit "da39a3ee5e6b4b0d3255bfef95601890afd80709"
                           := File 292 []]> ∅)) 18 []) _ _).
  - lia.
  - intros name f Hf. cbn [objdir] in Hf.
    apply lookup_insert_Some in Hf as [[_ <-]|[_ Hf]].
    + eexists. vm_compute. reflexivity.
    + apply lookup_insert_Some in Hf as [[_ <-]|[_ Hf]].
      * eexists. reflexivity.
      * by rewrite lookup_empty in Hf.
Defined.

Lemma verify_raises_on_binary_witness :
  let name := lit "85e53271e14006f0265921d02d4d736cdc580b0b" in
  let w := World (<[name := File 292 [xff]]> ∅) 18 [] in
  Sha1.hexdigest [xff] = name /\
  cmd_verify 4096 (fun _ => 0%nat) w = (Raise UnicodeDecodeError, w).
Proof.
  split; [vm_compute; reflexivity|].
  refine (verify_raises_on_binary 4096 (fun _ => 0%nat)
            (World (<[lit "85e53271e14006f0265921d02d4d736cdc580b0b"
                        := File 292 [xff]]> ∅) 18 [])
            (lit "85e53271e14006f0265921d02d4d736cdc580b0b")
            (File 292 [xff]) _ _ _).
  - lia.
  - apply lookup_insert_eq.
  - reflexivity.
Defined.

(* ===================================================================== *)
(** ** The codec *)
(* ===================================================================== *)

(** X8. Two V2 placeholders are equal only if they carry the same digest and
    the same size; two V1 placeholders only if they carry the same
    digest. *)
Theorem encode_injective (environ : gmap str str) (d1 d2 : str) (n1 n2 : Z) :
  is_digest d1 -> is_digest d2 -> (0 <= n1)%Z -> (0 <= n2)%Z ->
  encode environ d1 (Some n1) = encode environ d2 (Some n2) ->
  d1 = d2
  /\ (environ !! GIT_FAT_VERSION <> Some (lit "1") -> n1 = n2).
Proof.
  intros Hd1 Hd2 Hn1 Hn2. unfold encode. case_decide as Hv.
  - intros Heq.
    assert (H : cookie ++ d1 ++ [LF] = cookie ++ d2 ++ [LF])
      by (unfold encode_v1 in Heq; congruence).
    pose proof (decode_v1 d1 false (digest_nospace _ Hd1) (digest_nonempty _ Hd1)) as E1.
    pose proof (decode_v1 d2 false (digest_nospace _ Hd2) (digest_nonempty _ Hd2)) as E2.
    rewrite H in E1. rewrite E1 in E2. by injection E2.
  - intros Heq.
    assert (H : cookie ++ d1 ++ [SPACE] ++ rjust 20 (str_of_int n1) ++ [LF]
                = cookie ++ d2 ++ [SPACE] ++ rjust 20 (str_of_int n2) ++ [LF])
      by (unfold encode_v2 in Heq; congruence).
    pose proof (decode_v2 d1 n1 false (digest_nospace _ Hd1)
                  (digest_nonempty _ Hd1) Hn1) as E1.
    pose proof (decode_v2 d2 n2 false (digest_nospace _ Hd2)
                  (digest_nonempty _ Hd2) Hn2) as E2.
    rewrite H in E1. rewrite E1 in E2. by injection E2.
Qed.

Lemma encode_injective_witness :
  let d := lit "2aae6c35c94fcfb415dbe95f408b9ce91ee846ed" in
  is_digest d /\ (0 <= 11)%Z /\
  encode ∅ d (Some 11%Z) = encode ∅ d (Some 11%Z) /\
  d = d /\ ((∅ : gmap str str) !! GIT_FAT_VERSION <> Some (lit "1")
            -> 11%Z = 11%Z).
Proof.
  assert (Hd : is_digest (lit "2aae6c35c94fcfb415dbe95f408b9ce91ee846ed")).
  { split; [reflexivity | repeat constructor]. }
  assert (Hn : (0 <= 11)%Z) by lia.
  split; [exact Hd | split; [exact Hn | split; [reflexivity |]]].
  exact (encode_injective ∅ _ _ 11 11 Hd Hd Hn Hn eq_refl).
Defined.

(* ===================================================================== *)
(** ** The graph scan over blobs of ASCII text *)
(* ===================================================================== *)

Section Scan.

Lemma utf8_encode_ascii (s : str) :
  is_ascii s -> utf8_encode s = Some (map byte_of s).
Proof.
  induction 1 as [|c s Hc Hs IH]; [done|]. cbn [utf8_encode map].
  unfold encode_char. rewrite (proj2 (N.ltb_lt c 128)) by done.
  by rewrite IH.
Qed.

Lemma utf8_decode_ascii (s : str) :
  is_ascii s -> utf8_decode (map byte_of s) = Some s.
Proof. intros Hs. by apply utf8_decode_encode, utf8_encode_ascii. Qed.

Lemma byte_of_LF (c : N) : c < 128 -> Byte.eqb (byte_of c) x0a = (c =? LF).
Proof.
  intros Hc. destruct (N.eqb_spec c LF) as [->|Hne]; [done|].
  destruct (Byte.eqb (byte_of c) x0a) eqn:E; [|done].
  apply Byte.byte_dec_bl in E. apply (f_equal Byte.to_N) in E.
  rewrite to_N_byte_of in E by lia. by destruct Hne.
Qed.

Lemma readline_line (hdr : str) (rest : list byte) :
  is_ascii hdr -> Forall (fun c => c <> LF) hdr ->
  readline (map byte_of (hdr ++ [LF]) ++ rest)
  = (map byte_of (hdr ++ [LF]), rest).
Proof.
  intros Ha Hn. induction hdr as [|c hdr IH].
  - reflexivity.
  - apply Forall_cons_1 in Ha as [Hc Ha]. apply Forall_cons_1 in Hn as [Hc' Hn].
    cbn [app map readline]. rewrite byte_of_LF by done.
    rewrite (proj2 (N.eqb_neq c LF)) by done.
    cbn [app map] in IH. by rewrite IH.
Qed.

Lemma nospace_no_LF (s : str) : nospace s -> Forall (fun c => c <> LF) s.
Proof. intros H. eapply Forall_impl; [exact H|]. by intros c Hc ->. Qed.

Lemma isdigit_ascii (c : N) : isdigit c = true -> c < 128.
Proof.
  unfold isdigit. intros [_ H]%andb_prop. apply N.leb_le in H. lia.
Qed.

Lemma decimal_ascii (n : N) : is_ascii (decimal n).
Proof.
  eapply Forall_impl; [apply decimal_digits|]. apply isdigit_ascii.
Qed.

(** The header line of a record, as [split] sees it. *)
Lemma split_header (objhash : str) (n : N) :
  nospace objhash -> objhash <> [] ->
  split (objhash ++ lit " blob " ++ decimal n ++ [LF])
  = [objhash; lit "blob"; decimal n].
Proof.
  intros Hh Hne. unfold split.
  rewrite split_from_nospace, app_nil_l by done.
  change (lit " blob ") with ([SPACE] ++ lit "blob" ++ [SPACE]).
  rewrite <- !app_assoc.
  rewrite split_from_space_after by done.
  rewrite split_from_nospace, app_nil_l by (repeat constructor).
  rewrite split_from_space_after by done.
  rewrite split_from_nospace, app_nil_l by apply decimal_nospace.
  by rewrite split_from_space_end by (done || apply decimal_nonempty).
Qed.

(** Reading the content of a record whose bytes are ASCII. *)
Lemma read_content_ascii (fuel : nat) (content : str) (rest : list byte) :
  is_ascii content -> (1 < fuel)%nat ->
  read_content fuel (Z.of_nat (length content)) 0 []
    (map byte_of content ++ rest)
  = Ok (content, rest).
Proof.
  intros Ha Hf. destruct fuel as [|[|fuel]]; [lia..|].
  destruct content as [|c content].
  - reflexivity.
  - cbn [read_content]. rewrite (proj2 (Z.ltb_lt 0 _)) by (cbn [length]; lia).
    rewrite Z.sub_0_r, Nat2Z.id.
    rewrite <- (length_map byte_of (c :: content)).
    rewrite take_app_length, drop_app_length.
    cbn [map]. unfold decode_utf8.
    change (byte_of c :: map byte_of content) with (map byte_of (c :: content)).
    rewrite utf8_decode_ascii by done.
    change (Ok (c :: content) ≫= ?k) with (k (c :: content)). cbn beta.
    rewrite length_map. rewrite Z.add_0_l, Z.ltb_irrefl. done.
Qed.

(** One record of the batch output, for a blob of ASCII bytes. *)
Lemma scan_record (fuel : nat) (objhash : string) (content : str)
    (rest : list byte) (referenced : gset str) :
  nospace (lit objhash) -> lit objhash <> [] -> is_ascii (lit objhash) ->
  is_ascii content ->
  scan_records (S fuel) (batch_record objhash content ++ rest) referenced
  = (referenced' ←
       match decode content false with
       | Ok (Some fathash, _) => Ok ({[fathash]} ∪ referenced)
       | Ok (None, _) => Ok referenced
       | Raise (DecodeError _) => Ok referenced
       | Raise e => Raise e
       end;
     scan_records fuel rest referenced').
Proof.
  intros Hns Hne Hah Hac. unfold batch_record.
  set (n := N.of_nat (length content)).
  assert (Hhdr : is_ascii (lit objhash ++ lit " blob " ++ decimal n)).
  { apply Forall_app. split; [done|]. apply Forall_app. split.
    - repeat constructor.
    - apply decimal_ascii. }
  assert (Hnl : Forall (fun c => c <> LF) (lit objhash ++ lit " blob " ++ decimal n)).
  { apply Forall_app. split; [by apply nospace_no_LF|]. apply Forall_app. split.
    - repeat constructor; done.
    - apply nospace_no_LF, decimal_nospace. }
  replace (map byte_of (lit objhash ++ lit " blob " ++ decimal n ++ [LF]
                        ++ content ++ [LF]) ++ rest)
    with (map byte_of ((lit objhash ++ lit " blob " ++ decimal n) ++ [LF])
          ++ (map byte_of content ++ x0a :: rest)).
  2:{ rewrite !map_app, <- !app_assoc. reflexivity. }
  cbn [scan_records]. rewrite readline_line by done.
  destruct (map byte_of ((lit objhash ++ lit " blob " ++ decimal n) ++ [LF]))
    as [|b0 line] eqn:Eline.
  { apply (f_equal length) in Eline. rewrite length_map, length_app in Eline.
    cbn in Eline. lia. }
  rewrite <- Eline. unfold decode_utf8 at 1.
  rewrite utf8_decode_ascii by (apply Forall_app; split; [done|by repeat constructor]).
  change (Ok ?x ≫= ?k) with (k x). cbn beta.
  rewrite <- !app_assoc. rewrite split_header by done.
  rewrite int_decimal. change (Ok ?x ≫= ?k) with (k x). cbn beta.
  subst n. rewrite nat_N_Z.
  rewrite read_content_ascii by (done || rewrite length_app; cbn [length]; lia).
  change (Ok ?x ≫= ?k) with (k x). cbn beta iota.
  reflexivity.
Qed.

End Scan.

Section ScanAll.

Lemma decoded_digests_cons (c : str) (cs : list str) :
  decoded_digests (c :: cs)
  = match decode c false with
    | Ok (Some d, _) => {[d]} ∪ decoded_digests cs
    | _ => decoded_digests cs
    end.
Proof.
  unfold decoded_digests. cbn [omap list_omap].
  destruct (decode c false) as [[[d|] b]|e]; reflexivity.
Qed.

Lemma batch_record_length (objhash : string) (content : str) :
  (0 < length (batch_record objhash content))%nat.
Proof.
  unfold batch_record. rewrite length_map, !length_app. cbn [length]. lia.
Qed.

Lemma scan_records_all (records : list (string * str)) :
  Forall (fun r => nospace (lit r.1) /\ lit r.1 <> [] /\ is_ascii (lit r.1)
                   /\ is_ascii r.2 /\ decode_settles r.2) records ->
  forall (fuel : nat) (referenced : gset str),
  (length records <= fuel)%nat ->
  scan_records fuel (batch_output records) referenced
  = Ok (decoded_digests (map snd records) ∪ referenced).
Proof.
  induction 1 as [|[h c] records (Hns & Hne & Hah & Hac & Hd) Hrec IH];
    intros fuel referenced Hfuel.
  - cbn [map].
    assert (decoded_digests [] ∪ referenced = referenced) as ->.
    { unfold decoded_digests. cbn [omap list_omap list_to_set].
      by rewrite (left_id_L ∅ (∪)). }
    by destruct fuel.
  - cbn [length] in Hfuel. destruct fuel as [|fuel]; [lia|].
    unfold batch_output. cbn [map concat fst snd].
    rewrite scan_record by done.
    fold (batch_output records).
    rewrite decoded_digests_cons. cbn [fst snd] in Hd.
    destruct (decode c false) as [[[d|] b]|e] eqn:Edec.
    + change (Ok ?x ≫= ?k) with (k x). cbn beta.
      rewrite IH by lia. f_equal.
      rewrite (assoc_L (∪)). f_equal. apply (comm_L (∪)).
    + change (Ok ?x ≫= ?k) with (k x). cbn beta. by rewrite IH by lia.
    + destruct (Hd e Edec) as [msg ->].
      change (Ok ?x ≫= ?k) with (k x). cbn beta. by rewrite IH by lia.
Qed.

Lemma batch_output_length (records : list (string * str)) :
  (length records <= length (batch_output records))%nat.
Proof.
  induction records as [|[h c] records IH]; [done|].
  unfold batch_output in *. cbn [map concat length fst snd].
  rewrite length_app. pose proof (batch_record_length h c). lia.
Qed.

(** X11. The scan of the objects that the history references returns the
    digests that [decode] finds in the blobs, when the blobs are ASCII. *)
Theorem referenced_objects_collects (records : list (string * str)) :
  Forall (fun r => nospace (lit r.1) /\ lit r.1 <> [] /\ is_ascii (lit r.1)
                   /\ is_ascii r.2 /\ decode_settles r.2) records ->
  referenced_objects (batch_output records)
  = Ok (decoded_digests (map snd records)).
Proof.
  intros Hrec. unfold referenced_objects.
  rewrite (scan_records_all records Hrec)
    by (pose proof (batch_output_length records); lia).
  by rewrite (right_id_L ∅ (∪)).
Qed.

End ScanAll.

Lemma referenced_objects_collects_witness :
  let records :=
    [("cccccccccccccccccccccccccccccccccccccccc"%string, example_placeholder);
     ("dddddddddddddddddddddddddddddddddddddddd"%string, lit "plain text");
     ("eeeeeeeeeeeeeeeeeeeeeeeeeeeeeeeeeeeeeeee"%string,
      lit "#$# git-fat da39a3ee5e6b4b0d3255bfef95601890afd80709" ++ [LF])] in
  referenced_objects (batch_output records)
  = Ok (decoded_digests (map snd records)).
Proof.
  refine (referenced_objects_collects
    [("cccccccccccccccccccccccccccccccccccccccc"%string, example_placeholder);
     ("dddddddddddddddddddddddddddddddddddddddd"%string, lit "plain text");
     ("eeeeeeeeeeeeeeeeeeeeeeeeeeeeeeeeeeeeeeee"%string,
      lit "#$# git-fat da39a3ee5e6b4b0d3255bfef95601890afd80709" ++ [LF])] _).
  repeat apply Forall_cons_2; [..|apply Forall_nil_2].
  all: cbn [fst snd]; split_and!.
  all: try (unfold is_ascii, nospace; vm_compute; repeat constructor; fail).
  all: try (vm_compute; discriminate).
  all: intros e He; vm_compute in He; try discriminate.
  injection He as <-. eexists. reflexivity.
Defined.

(* ===================================================================== *)
(** ** The arguments of pull *)
(* ===================================================================== *)

Section PullPatterns.

Lemma list_index_first (x : str) (a b : list str) :
  x ∉ a -> list_index x (a ++ x :: b) = Ok (length a).
Proof.
  induction a as [|y a IH]; intros Hx; cbn [app list_index length].
  - by rewrite decide_True.
  - apply not_elem_of_cons in Hx as [Hne Hx].
    rewrite decide_False by done. by rewrite IH.
Qed.

Lemma drop_after (x : str) (a b : list str) :
  drop (length a + 1) (a ++ x :: b) = b.
Proof. induction a as [|y a IH]; [done|exact IH]. Qed.

Lemma parse_pull_patterns_split (a b : list str) :
  lit "--" ∉ a ->
  parse_pull_patterns (a ++ lit "--" :: b) = Ok b.
Proof.
  intros Ha. unfold parse_pull_patterns.
  rewrite decide_False.
  2:{ intros H. apply H, elem_of_app. right. by left. }
  rewrite list_index_first by done.
  change (Ok ?x ≫= ?k) with (k x). cbn beta.
  by rewrite drop_after.
Qed.

(** X12. [parse_pull_patterns] never raises: the [ValueError] of
    [args.index] is not reachable.  Without a [--] the result is the one
    empty pattern; with one, the result is what follows the first [--], a
    later [--] being a pattern like any other. *)
Theorem parse_pull_patterns_total (args : list str) :
  exists patterns,
    parse_pull_patterns args = Ok patterns
    /\ (lit "--" ∉ args -> patterns = [lit ""])
    /\ (lit "--" ∈ args ->
        exists a, args = a ++ lit "--" :: patterns /\ lit "--" ∉ a).
Proof.
  destruct (decide (lit "--" ∈ args)) as [Hin|Hnot].
  - apply list_elem_of_split_l in Hin as (a & b & -> & Ha).
    exists b. split; [by apply parse_pull_patterns_split|].
    split.
    + intros H. destruct H. apply elem_of_app. right. by left.
    + intros _. by exists a.
  - exists [lit ""]. unfold parse_pull_patterns.
    rewrite decide_True by done. done.
Qed.

End PullPatterns.

(* ===================================================================== *)
(** ** The threads of the graph scan *)
(* ===================================================================== *)

Section Threads.

Lemma decode_utf8_ascii (s : str) :
  is_ascii s -> decode_utf8 (map byte_of s) = Ok s.
Proof. intros Hs. unfold decode_utf8. by rewrite utf8_decode_ascii. Qed.

Lemma encode_utf8_ascii (s : str) :
  is_ascii s -> encode_utf8 s = Ok (map byte_of s).
Proof. intros Hs. unfold encode_utf8. by rewrite utf8_encode_ascii. Qed.

(** The lines of a stream made of texts that end in LF and have no other. *)
Lemma readlines_fuel_lines (texts : list str) (fuel : nat) :
  Forall (fun l => is_ascii l /\ Forall (fun c => c <> LF) l) texts ->
  (length texts <= fuel)%nat ->
  readlines_fuel fuel (concat (map (fun l => map byte_of (l ++ [LF])) texts))
  = map (fun l => map byte_of (l ++ [LF])) texts.
Proof.
  intros Hall. revert fuel.
  induction Hall as [|l texts [Ha Hn] Hall IH]; intros fuel Hfuel.
  - by destruct fuel.
  - cbn [length] in Hfuel. destruct fuel as [|fuel]; [lia|].
    cbn [map concat readlines_fuel]. rewrite readline_line by done.
    destruct (map byte_of (l ++ [LF])) as [|b0 line] eqn:El.
    { apply (f_equal length) in El. rewrite length_map, length_app in El.
      cbn in El. lia. }
    by rewrite IH by lia.
Qed.

Lemma readlines_lines (texts : list str) :
  Forall (fun l => is_ascii l /\ Forall (fun c => c <> LF) l) texts ->
  readlines (concat (map (fun l => map byte_of (l ++ [LF])) texts))
  = map (fun l => map byte_of (l ++ [LF])) texts.
Proof.
  intros Hall. apply readlines_fuel_lines; [done|].
  clear Hall. induction texts as [|l texts IH]; [done|].
  cbn [map concat length]. rewrite length_app, length_map, length_app.
  cbn [length]. lia.
Qed.

(** A loop whose body appends [g x] for the line of every [x]. *)
Lemma for_lines_append {A} (body : list byte -> list byte -> result (list byte))
    (line g : A -> list byte) (xs : list A) (output : list byte) :
  Forall (fun x => forall out, body (line x) out = Ok (out ++ g x)) xs ->
  for_lines body (map line xs) output
  = (Ok tt, output ++ concat (map g xs)).
Proof.
  intros Hall. revert output.
  induction Hall as [|x xs Hx Hall IH]; intros output; cbn [map concat for_lines].
  - by rewrite app_nil_r.
  - by rewrite Hx, IH, app_assoc.
Qed.

Lemma ascii_SPACE : is_ascii [SPACE].
Proof. by repeat constructor. Qed.

Lemma ascii_LF : is_ascii [LF].
Proof. by repeat constructor. Qed.

Lemma is_ascii_app (a b : str) : is_ascii a -> is_ascii b -> is_ascii (a ++ b).
Proof. intros. by apply Forall_app. Qed.

(** *** cut_sha1hash *)

Lemma split_first (h rest : str) :
  nospace h -> h <> [] ->
  exists toks, split (h ++ [SPACE] ++ rest) = h :: toks.
Proof.
  intros Hh Hne. unfold split.
  rewrite split_from_nospace, app_nil_l by done.
  rewrite split_from_space_after by done. by eexists.
Qed.

Lemma cut_sha1hash_line_spec (obj : str * option str) (output : list byte) :
  rev_list_ok obj ->
  cut_sha1hash_line (rev_list_line obj) output
  = Ok (output ++ map byte_of (obj.1 ++ [LF])).
Proof.
  destruct obj as [h [path|]]; intros (Hns & Hne & Ha & Hp); cbn [fst snd] in *.
  - destruct (Hp path eq_refl) as [Hpa Hpn].
    unfold cut_sha1hash_line, rev_list_line. cbn [fst snd].
    rewrite decode_utf8_ascii
      by (repeat apply is_ascii_app; auto using ascii_SPACE, ascii_LF).
    change (Ok ?x ≫= ?k) with (k x). cbn beta.
    rewrite <- (app_assoc [SPACE]).
    destruct (split_first h (path ++ [LF]) Hns Hne) as [toks ->].
    change (Ok ?x ≫= ?k) with (k x). cbn beta.
    rewrite encode_utf8_ascii by (apply is_ascii_app; auto using ascii_LF).
    done.
  - unfold cut_sha1hash_line, rev_list_line. cbn [fst snd app].
    rewrite decode_utf8_ascii by (apply is_ascii_app; auto using ascii_LF).
    change (Ok ?x ≫= ?k) with (k x). cbn beta.
    rewrite split_v1 by done.
    change (Ok ?x ≫= ?k) with (k x). cbn beta.
    rewrite encode_utf8_ascii by (apply is_ascii_app; auto using ascii_LF).
    done.
Qed.

Lemma rev_list_text_ok (obj : str * option str) :
  rev_list_ok obj ->
  is_ascii (rev_list_text obj) /\ Forall (fun c => c <> LF) (rev_list_text obj).
Proof.
  destruct obj as [h [path|]]; intros (Hns & Hne & Ha & Hp);
    unfold rev_list_text; cbn [fst snd] in *.
  - destruct (Hp path eq_refl) as [Hpa Hpn]. split.
    + repeat apply is_ascii_app; auto using ascii_SPACE.
    + repeat apply Forall_app_2; [by apply nospace_no_LF | by repeat constructor | done].
  - rewrite app_nil_r. split; [done | by apply nospace_no_LF].
Qed.

Lemma rev_list_line_text (obj : str * option str) :
  rev_list_line obj = map byte_of (rev_list_text obj ++ [LF]).
Proof.
  unfold rev_list_line, rev_list_text. by rewrite <- app_assoc.
Qed.

(** X13. [cut_sha1hash] turns the lines of [git rev-list --objects] into the
    object names, one per line and in the same order, and ends normally. *)
Theorem cut_sha1hash_names (objs : list (str * option str)) :
  Forall (fun obj =>
            nospace obj.1 /\ obj.1 <> [] /\ is_ascii obj.1
            /\ forall path, obj.2 = Some path ->
                 is_ascii path /\ Forall (fun c => c <> LF) path) objs ->
  cut_sha1hash (concat (map rev_list_line objs))
  = (Ok tt, concat (map (fun obj => map byte_of (obj.1 ++ [LF])) objs)).
Proof.
  intros Hall. unfold cut_sha1hash.
  assert (Hlines : map rev_list_line objs
                   = map (fun l => map byte_of (l ++ [LF]))
                       (map rev_list_text objs)).
  { rewrite map_map. apply map_ext. intros obj. apply rev_list_line_text. }
  rewrite Hlines, readlines_lines, <- Hlines.
  - rewrite (for_lines_append _ rev_list_line
               (fun obj => map byte_of (obj.1 ++ [LF]))); [done|].
    eapply Forall_impl; [exact Hall|]. intros obj Hobj out.
    by apply cut_sha1hash_line_spec.
  - apply Forall_map. eapply Forall_impl; [exact Hall|].
    intros obj Hobj. by apply rev_list_text_ok.
Qed.

(** *** filter_gitfat_candidates *)

Lemma split_three (a b c : str) :
  nospace a -> a <> [] -> nospace b -> b <> [] -> nospace c -> c <> [] ->
  split (a ++ [SPACE] ++ b ++ [SPACE] ++ c ++ [LF]) = [a; b; c].
Proof.
  intros Ha Hane Hb Hbne Hc Hcne. unfold split.
  rewrite split_from_nospace, app_nil_l by done.
  rewrite split_from_space_after by done.
  rewrite split_from_nospace, app_nil_l by done.
  rewrite split_from_space_after by done.
  rewrite split_from_nospace, app_nil_l by done.
  by rewrite split_from_space_end.
Qed.

Lemma filter_line_spec (self : t) (entry : str * str * N) (output : list byte) :
  entry_ok entry ->
  filter_gitfat_candidates_line self (batch_check_line entry) output
  = Ok (output ++ if is_candidate self entry
                  then map byte_of (entry.1.1 ++ [LF]) else []).
Proof.
  destruct entry as [[h ty] n]. intros (Hh & Hhne & Hha & Ht & Htne & Hta).
  cbn [fst snd] in *.
  unfold filter_gitfat_candidates_line, batch_check_line, is_candidate.
  cbn [fst snd].
  rewrite decode_utf8_ascii
    by (repeat apply is_ascii_app;
        auto using ascii_SPACE, ascii_LF, decimal_ascii).
  change (Ok ?x ≫= ?k) with (k x). cbn beta.
  rewrite split_three
    by auto using decimal_nospace, decimal_nonempty.
  destruct (decide (ty = lit "blob")) as [Hty|Hty].
  - rewrite int_decimal. change (Ok ?x ≫= ?k) with (k x). cbn beta.
    destruct (decide (Z.of_N n ∈ map Z.of_nat (magiclens self))) as [Hn|Hn].
    + rewrite bool_decide_eq_true_2 by done.
      by rewrite encode_utf8_ascii by (apply is_ascii_app; auto using ascii_LF).
    + rewrite bool_decide_eq_false_2 by (by intros [_ ?]).
      by rewrite app_nil_r.
  - rewrite bool_decide_eq_false_2 by (by intros [? _]).
    by rewrite app_nil_r.
Qed.

Lemma batch_check_text_ok (entry : str * str * N) :
  entry_ok entry ->
  let text := entry.1.1 ++ [SPACE] ++ entry.1.2 ++ [SPACE] ++ decimal entry.2 in
  is_ascii text /\ Forall (fun c => c <> LF) text.
Proof.
  destruct entry as [[h ty] n]. intros (Hh & Hhne & Hha & Ht & Htne & Hta).
  cbn [fst snd] in *. split.
  - repeat apply is_ascii_app; auto using ascii_SPACE, decimal_ascii.
  - repeat apply Forall_app_2;
      auto using nospace_no_LF, decimal_nospace; by repeat constructor.
Qed.

Lemma concat_map_filter {A} (p : A -> bool) (g : A -> list byte) (xs : list A) :
  concat (map (fun x => if p x then g x else []) xs)
  = concat (map g (List.filter p xs)).
Proof.
  induction xs as [|x xs IH]; [done|]. cbn [map concat List.filter].
  destruct (p x); cbn [map concat app]; by rewrite IH.
Qed.

(** X14. [filter_gitfat_candidates] passes on the names of exactly the
    blobs whose size is one of the magic lengths, in the order of the
    input, and ends normally. *)
Theorem filter_gitfat_candidates_selects (self : t)
    (entries : list (str * str * N)) :
  Forall (fun entry =>
            nospace entry.1.1 /\ entry.1.1 <> [] /\ is_ascii entry.1.1
            /\ nospace entry.1.2 /\ entry.1.2 <> [] /\ is_ascii entry.1.2)
    entries ->
  filter_gitfat_candidates self (concat (map batch_check_line entries))
  = (Ok tt,
     concat (map (fun entry => map byte_of (entry.1.1 ++ [LF]))
               (List.filter (is_candidate self) entries))).
Proof.
  intros Hall. unfold filter_gitfat_candidates.
  assert (Hlines : map batch_check_line entries
                   = map (fun l => map byte_of (l ++ [LF]))
                       (map (fun entry : str * str * N =>
                               entry.1.1 ++ [SPACE] ++ entry.1.2 ++ [SPACE]
                               ++ decimal entry.2) entries)).
  { rewrite map_map. apply map_ext. intros entry. unfold batch_check_line.
    by rewrite <- !app_assoc. }
  rewrite Hlines, readlines_lines, <- Hlines.
  - rewrite (for_lines_append _ batch_check_line
               (fun entry => if is_candidate self entry
                             then map byte_of (entry.1.1 ++ [LF]) else [])).
    + by rewrite concat_map_filter.
    + eapply Forall_impl; [exact Hall|]. intros entry Hentry out.
      by apply filter_line_spec.
  - apply Forall_map. eapply Forall_impl; [exact Hall|].
    intros entry Hentry. by apply batch_check_text_ok.
Qed.

End Threads.

(* ===================================================================== *)
(** ** Placeholders in the working tree *)
(* ===================================================================== *)

Section Tree.

Variable tree : gmap str (list byte).

Lemma decode_file_text (self : t) (fname p d : str) (b : option Z) :
  tree !! fname = Some (map byte_of p) -> is_ascii p ->
  Forall (fun c => c <> CR) p ->
  length p = magiclen self ->
  decode p false = Ok (Some d, b) ->
  decode_file tree self fname = Ok (DStr d, b).
Proof.
  intros Hf Ha Hcr Hl Hd. unfold decode_file. rewrite Hf.
  rewrite decide_False by (rewrite length_map; lia).
  rewrite decode_utf8_ascii by done.
  change (Ok ?x ≫= ?k) with (k x). cbn beta.
  rewrite universal_newlines_no_CR by done.
  unfold decode_stream. rewrite <- Hl, firstn_all, Hd. done.
Qed.

(** The characters of a placeholder: none is CR. *)
Lemma no_CR_app (a b : str) :
  Forall (fun c => c <> CR) a -> Forall (fun c => c <> CR) b ->
  Forall (fun c => c <> CR) (a ++ b).
Proof. intros. by apply Forall_app. Qed.

Lemma digest_no_CR (d : str) : is_digest d -> Forall (fun c => c <> CR) d.
Proof.
  intros [_ Hd]. eapply Forall_impl; [exact Hd|]. intros c Hc ->.
  by vm_compute in Hc.
Qed.

Lemma cookie_no_CR : Forall (fun c => c <> CR) cookie.
Proof. by repeat constructor. Qed.

Lemma fmt_20d_no_CR (n : Z) :
  (0 <= n)%Z -> Forall (fun c => c <> CR) (rjust 20 (str_of_int n)).
Proof.
  intros Hn. unfold rjust. rewrite str_of_int_nonneg by done.
  apply no_CR_app; [by apply Forall_replicate|].
  eapply Forall_impl; [apply decimal_digits|]. intros c Hc ->.
  by vm_compute in Hc.
Qed.

Lemma digest_ascii (d : str) : is_digest d -> is_ascii d.
Proof.
  intros [_ Hd]. eapply Forall_impl; [exact Hd|]. intros c Hc.
  unfold ishex in Hc.
  apply orb_prop in Hc as [Hc|Hc]; apply andb_prop in Hc as [_ Hc];
    apply N.leb_le in Hc; lia.
Qed.

Lemma cookie_ascii : is_ascii cookie.
Proof. by repeat constructor. Qed.

Lemma fmt_20d_ascii (n : Z) : (0 <= n)%Z -> is_ascii (rjust 20 (str_of_int n)).
Proof.
  intros Hn. unfold rjust. rewrite str_of_int_nonneg by done.
  apply is_ascii_app; [|apply decimal_ascii].
  by apply Forall_replicate.
Qed.

(** X15. A file of the working tree that holds the placeholder which this
    configuration writes for a digest is recognised by [decode_file]. *)
Theorem decode_file_own_placeholder (environ : gmap str str) (self : t)
    (fname d p : str) (n : Z) :
  __init__ environ = Ok self ->
  is_digest d -> (0 <= n < 10 ^ 20)%Z ->
  encode environ d (Some n) = Ok p ->
  tree !! fname = Some (map byte_of p) ->
  decode_file tree self fname
  = Ok (DStr d,
        if decide (environ !! GIT_FAT_VERSION = Some (lit "1"))
        then None else Some n).
Proof.
  intros Hinit Hd Hn Henc Hf. rewrite init_value in Hinit.
  pose proof (digest_nospace d Hd) as Hns.
  pose proof (digest_nonempty d Hd) as Hne.
  pose proof (digest_ascii d Hd) as Hda.
  assert (self = Self (if decide (environ !! GIT_FAT_VERSION = Some (lit "1"))
                       then 53%nat else 74%nat) [53; 74]%nat) as ->
    by congruence.
  case_decide as Hv.
  - rewrite encode_is_v1 in Henc by done.
    apply (decode_file_text _ _ p); [done| | | |].
    + assert (p = cookie ++ d ++ [LF]) as ->
        by (unfold encode_v1 in Henc; congruence).
      apply is_ascii_app; [apply cookie_ascii|].
      apply is_ascii_app; [done|apply ascii_LF].
    + assert (p = cookie ++ d ++ [LF]) as ->
        by (unfold encode_v1 in Henc; congruence).
      apply no_CR_app; [apply cookie_no_CR|].
      apply no_CR_app; [by apply digest_no_CR|by repeat constructor].
    + cbn [magiclen]. eapply encode_v1_length; [apply Hd|exact Henc].
    + assert (p = cookie ++ d ++ [LF]) as ->
        by (unfold encode_v1 in Henc; congruence).
      by apply decode_v1.
  - rewrite encode_is_v2 in Henc by done.
    apply (decode_file_text _ _ p); [done| | | |].
    + assert (p = cookie ++ d ++ [SPACE] ++ rjust 20 (str_of_int n) ++ [LF]) as ->
        by (unfold encode_v2 in Henc; congruence).
      apply is_ascii_app; [apply cookie_ascii|].
      apply is_ascii_app; [done|].
      apply is_ascii_app; [apply ascii_SPACE|].
      apply is_ascii_app; [apply fmt_20d_ascii; lia | apply ascii_LF].
    + assert (p = cookie ++ d ++ [SPACE] ++ rjust 20 (str_of_int n) ++ [LF]) as ->
        by (unfold encode_v2 in Henc; congruence).
      apply no_CR_app; [apply cookie_no_CR|].
      apply no_CR_app; [by apply digest_no_CR|].
      apply no_CR_app; [by repeat constructor|].
      apply no_CR_app; [apply fmt_20d_no_CR; lia | by repeat constructor].
    + cbn [magiclen]. eapply encode_v2_length; [apply Hd|exact Hn|exact Henc].
    + assert (p = cookie ++ d ++ [SPACE] ++ rjust 20 (str_of_int n) ++ [LF]) as ->
        by (unfold encode_v2 in Henc; congruence).
      apply decode_v2; [done|done|lia].
Qed.

(** X16. A placeholder of the other format version is not recognised:
    [decode_file] compares the size of the file with the one magic length
    of the configured version only. *)
Theorem decode_file_other_version (environ environ' : gmap str str) (self : t)
    (fname d p : str) (n : Z) :
  __init__ environ = Ok self ->
  is_digest d -> (0 <= n < 10 ^ 20)%Z ->
  (environ !! GIT_FAT_VERSION = Some (lit "1")
   <-> environ' !! GIT_FAT_VERSION <> Some (lit "1")) ->
  encode environ' d (Some n) = Ok p ->
  tree !! fname = Some (map byte_of p) ->
  decode_file tree self fname = Ok (DFalse, None).
Proof.
  intros Hinit Hd Hn Hv Henc Hf. rewrite init_value in Hinit.
  assert (self = Self (if decide (environ !! GIT_FAT_VERSION = Some (lit "1"))
                       then 53%nat else 74%nat) [53; 74]%nat) as ->
    by congruence.
  unfold decode_file. rewrite Hf, length_map.
  destruct (decide (environ' !! GIT_FAT_VERSION = Some (lit "1"))) as [Hv'|Hv'].
  - rewrite encode_is_v1 in Henc by done.
    rewrite (encode_v1_length d (Some n) p) by (done || apply Hd).
    rewrite (decide_False (P := environ !! GIT_FAT_VERSION = Some (lit "1")))
      by (intros H; by apply Hv in H).
    by rewrite decide_True.
  - rewrite encode_is_v2 in Henc by done.
    rewrite (encode_v2_length d n p) by (done || apply Hd).
    rewrite (decide_True (P := environ !! GIT_FAT_VERSION = Some (lit "1")))
      by (by apply Hv).
    by rewrite decide_True.
Qed.

End Tree.

Section Orphans.

Variable tree : gmap str (list byte).
Variable git_ls_files : list str -> list byte.

Lemma split_sep_from_field (tok name rest : str) :
  Forall (fun c => c <> NUL) name ->
  split_sep_from NUL tok (name ++ [NUL] ++ rest)
  = (tok ++ name) :: split_sep_from NUL [] rest.
Proof.
  intros Hn. revert tok. induction Hn as [|c name Hc Hn IH]; intros tok.
  - by rewrite app_nil_r.
  - cbn [app split_sep_from]. rewrite (proj2 (N.eqb_neq c NUL)) by done.
    cbn [app] in IH. by rewrite IH, <- app_assoc.
Qed.

(** The fields of the output of [git ls-files -z]: the names and one
    empty field after the last NUL. *)
Lemma split_sep_names (names : list str) :
  Forall (fun name => Forall (fun c => c <> NUL) name) names ->
  split_sep NUL (concat (map (fun name => name ++ [NUL]) names))
  = names ++ [[]].
Proof.
  unfold split_sep. induction 1 as [|name names Hn Hall IH]; [done|].
  cbn [map concat]. rewrite <- app_assoc, split_sep_from_field by done.
  by rewrite IH.
Qed.

Lemma orphan_loop_spec (self : t) (fnames : list str) :
  Forall (fun fname =>
            exists r, decode_file tree self fname = Ok r) fnames ->
  exists orphans,
    orphan_loop tree self fnames = Ok orphans
    /\ forall d fname,
         (d, fname) ∈ orphans
         <-> fname ∈ fnames /\ d <> []
             /\ exists b, decode_file tree self fname = Ok (DStr d, b).
Proof.
  induction 1 as [|fname fnames [[dg b] Hr] Hall (orphans & Hrun & Hspec)].
  - exists []. split; [done|]. intros d fname. split.
    + by intros ?%elem_of_nil.
    + by intros [?%elem_of_nil _].
  - cbn [orphan_loop]. rewrite Hr, Hrun.
    change (Ok ?x ≫= ?k) with (k x). cbn beta iota.
    change (Ok ?x ≫= ?k) with (k x). cbn beta.
    assert (Hskip : (forall d b', d <> [] -> Ok (dg, b) <> Ok (DStr d, b')) ->
              forall d f, (d, f) ∈ orphans
                <-> f ∈ fname :: fnames /\ d <> []
                    /\ exists b', decode_file tree self f
                                  = Ok (DStr d, b')).
    { intros Hno d f. rewrite Hspec, elem_of_cons. split.
      - intros (? & ? & ?). by auto.
      - intros ([->|?] & Hd & b' & Hb'); [|by eauto].
        rewrite Hr in Hb'. by destruct (Hno d b' Hd). }
    destruct dg as [| |[|c d0]]; eexists; (split; [reflexivity|]).
    1-3: apply Hskip; intros d b' Hd [= ?]; try done; by subst.
    intros d f. rewrite !elem_of_cons, Hspec. split.
    + intros [[= -> ->]|(? & ? & ?)]; [|by auto].
      split; [by left|]. split; [done|]. by exists b.
    + intros ([->|?] & Hd & b' & Hb'); [|by eauto].
      left. rewrite Hr in Hb'. by injection Hb' as <- _.
Qed.

(** X17. [orphan_files] yields [(digest, name)] exactly for the listed files
    that [decode_file] recognises as placeholders; the names are recovered
    from the NUL-separated list whatever other characters they hold. *)
Theorem orphan_files_lists (self : t) (patterns : list str)
    (names : list str) :
  git_ls_files (orphan_patterns patterns) = ls_files_output names ->
  Forall (fun name => is_ascii name /\ Forall (fun c => c <> NUL) name
                      /\ exists r, decode_file tree self name = Ok r)
    names ->
  exists orphans,
    orphan_files tree git_ls_files self patterns = Ok orphans
    /\ forall d fname,
         (d, fname) ∈ orphans
         <-> fname ∈ names /\ d <> []
             /\ exists b, decode_file tree self fname = Ok (DStr d, b).
Proof.
  intros Hls Hall. unfold orphan_files. rewrite Hls. unfold ls_files_output.
  rewrite decode_utf8_ascii.
  2:{ clear Hls. induction Hall as [|name names (Ha & _ & _) Hall IH]; [constructor|].
      cbn [map concat]. rewrite <- app_assoc.
      apply is_ascii_app; [done|]. apply is_ascii_app; [by repeat constructor|done]. }
  change (Ok ?x ≫= ?k) with (k x). cbn beta zeta.
  rewrite split_sep_names
    by (eapply Forall_impl; [exact Hall|]; by intros ? (_ & ? & _)).
  rewrite length_app. cbn [length].
  replace (length names + 1 - 1)%nat with (length names) by lia.
  rewrite take_app_length.
  apply orphan_loop_spec.
  eapply Forall_impl; [exact Hall|]. by intros ? (_ & _ & ?).
Qed.

End Orphans.

Lemma orphan_files_lists_witness :
  let tree : gmap str (list byte) :=
    {[ lit "big file.bin" := map byte_of example_placeholder ;
       lit "notes.txt" := bytes_of_ascii "plain text" ]} in
  let names := [lit "big file.bin"; lit "notes.txt"; lit "gone"] in
  exists orphans,
    orphan_files tree (fun _ => ls_files_output names) example_self []
    = Ok orphans
    /\ forall d fname,
         (d, fname) ∈ orphans
         <-> fname ∈ names /\ d <> []
             /\ exists b, decode_file tree example_self fname
                          = Ok (DStr d, b).
Proof.
  refine (orphan_files_lists
            {[ lit "big file.bin" := map byte_of example_placeholder ;
               lit "notes.txt" := bytes_of_ascii "plain text" ]}
            (fun _ => ls_files_output
                        [lit "big file.bin"; lit "notes.txt"; lit "gone"])
            example_self []
            [lit "big file.bin"; lit "notes.txt"; lit "gone"] _ _).
  - reflexivity.
  - repeat apply Forall_cons_2; [..|apply Forall_nil_2].
    all: split; [by repeat constructor|].
    all: split; [by repeat constructor|].
    all: eexists; vm_compute; reflexivity.
Defined.

(** X19. Whatever the configured version, the candidates of the scan are
    the blobs of 53 and of 74 bytes: the placeholders of both versions. *)
Theorem candidates_both_versions (environ : gmap str str) (self : t)
    (entry : str * str * N) :
  __init__ environ = Ok self ->
  is_candidate self entry = true
  <-> entry.1.2 = lit "blob" /\ (entry.2 = 53 \/ entry.2 = 74).
Proof.
  intros Hinit. rewrite init_value in Hinit.
  assert (magiclens self = [53; 74]%nat) as Hm by (by injection Hinit as <-).
  unfold is_candidate. rewrite bool_decide_eq_true, Hm. cbn [map].
  rewrite !elem_of_cons, elem_of_nil.
  split; (intros [? ?]; split; [done|lia]).
Qed.

Lemma candidates_both_versions_witness :
  __init__ ∅ = Ok example_self /\
  (is_candidate example_self
     (lit "cccccccccccccccccccccccccccccccccccccccc", lit "blob", 53) = true
   <-> lit "blob" = lit "blob" /\ (53 = 53 \/ 53 = 74)).
Proof.
  assert (H : __init__ ∅ = Ok example_self) by (vm_compute; reflexivity).
  split; [exact H|].
  exact (candidates_both_versions ∅ example_self
           (lit "cccccccccccccccccccccccccccccccccccccccc", lit "blob", 53) H).
Defined.

Lemma decode_file_own_placeholder_witness :
  let tree : gmap str (list byte) :=
    {[ lit "big.bin" := map byte_of example_placeholder ]} in
  decode_file tree example_self (lit "big.bin")
  = Ok (DStr (lit "2aae6c35c94fcfb415dbe95f408b9ce91ee846ed"), Some 11%Z).
Proof.
  refine (decode_file_own_placeholder
            {[ lit "big.bin" := map byte_of example_placeholder ]}
            ∅ example_self (lit "big.bin")
            (lit "2aae6c35c94fcfb415dbe95f408b9ce91ee846ed")
            example_placeholder 11 _ _ _ _ _).
  - vm_compute. reflexivity.
  - split; [reflexivity | repeat constructor].
  - lia.
  - vm_compute. reflexivity.
  - reflexivity.
Defined.

Lemma decode_file_other_version_witness :
  let legacy := lit "#$# git-fat 2aae6c35c94fcfb415dbe95f408b9ce91ee846ed" ++ [LF] in
  let tree : gmap str (list byte) := {[ lit "old.bin" := map byte_of legacy ]} in
  decode_file tree example_self (lit "old.bin") = Ok (DFalse, None).
Proof.
  refine (decode_file_other_version
            {[ lit "old.bin"
               := map byte_of
                    (lit "#$# git-fat 2aae6c35c94fcfb415dbe95f408b9ce91ee846ed"
                     ++ [LF]) ]}
            ∅ {[ GIT_FAT_VERSION := lit "1" ]} example_self (lit "old.bin")
            (lit "2aae6c35c94fcfb415dbe95f408b9ce91ee846ed")
            (lit "#$# git-fat 2aae6c35c94fcfb415dbe95f408b9ce91ee846ed" ++ [LF])
            11 _ _ _ _ _ _).
  - vm_compute. reflexivity.
  - split; [reflexivity | repeat constructor].
  - lia.
  - split.
    + intros H. discriminate H.
    + intros H. exfalso. apply H. reflexivity.
  - vm_compute. reflexivity.
  - reflexivity.
Defined.

Lemma cut_sha1hash_names_witness :
  let objs :=
    [(lit "8f94139338f9404f26296befa88755fc2598c289", None);
     (lit "4b825dc642cb6eb9a060e54bf8d69288fbee4904", Some (lit ""));
     (lit "ce013625030ba8dba906f756967f9e9ca394464a", Some (lit "src/big file.bin"))] in
  cut_sha1hash (concat (map rev_list_line objs))
  = (Ok tt, concat (map (fun obj => map byte_of (obj.1 ++ [LF])) objs)).
Proof.
  refine (cut_sha1hash_names
    [(lit "8f94139338f9404f26296befa88755fc2598c289", None);
     (lit "4b825dc642cb6eb9a060e54bf8d69288fbee4904", Some (lit ""));
     (lit "ce013625030ba8dba906f756967f9e9ca394464a", Some (lit "src/big file.bin"))]
    _).
  repeat apply Forall_cons_2; [..|apply Forall_nil_2].
  all: cbn [fst snd].
  all: split; [by repeat constructor|].
  all: split; [done|].
  all: split; [by repeat constructor|].
  all: intros path [= <-]; split; by repeat constructor.
Defined.

Lemma filter_gitfat_candidates_selects_witness :
  let entries :=
    [(lit "ce013625030ba8dba906f756967f9e9ca394464a", lit "blob", 74);
     (lit "4b825dc642cb6eb9a060e54bf8d69288fbee4904", lit "tree", 74);
     (lit "e69de29bb2d1d6434b8b29ae775ad8c2e48c5391", lit "blob", 12);
     (lit "0835e4f9714005ed591f68d306eea0d6d2ae8fd7", lit "blob", 53)] in
  filter_gitfat_candidates example_self (concat (map batch_check_line entries))
  = (Ok tt,
     concat (map (fun entry => map byte_of (entry.1.1 ++ [LF]))
               (List.filter (is_candidate example_self) entries))).
Proof.
  refine (filter_gitfat_candidates_selects example_self
    [(lit "ce013625030ba8dba906f756967f9e9ca394464a", lit "blob", 74);
     (lit "4b825dc642cb6eb9a060e54bf8d69288fbee4904", lit "tree", 74);
     (lit "e69de29bb2d1d6434b8b29ae775ad8c2e48c5391", lit "blob", 12);
     (lit "0835e4f9714005ed591f68d306eea0d6d2ae8fd7", lit "blob", 53)] _).
  repeat apply Forall_cons_2; [..|apply Forall_nil_2].
  all: cbn [fst snd].
  all: repeat split; try done; by repeat constructor.
Defined.
